(** * Earthquake visualizer: normalization, ingestion and query pipeline

    A shallow embedding of [src/components/EarthquakeMap.tsx]: the record
    normalizer inside [fetchData], the ingestion outcome of [fetchData],
    [formatCountry], [applyFilter] and the [paginatedData] window.

    Modelling conventions.
    - A JavaScript value obtained from [res.json()] is a [JsVal]; property
      access on it follows the language (a [TypeError] on [undefined] and
      [null], [undefined] for an absent property).
    - A JavaScript number is an IEEE double.  Only its order matters here,
      so it is represented by its value: [NaN], an infinity, or a rational.
    - A string read from the feed or typed by the user is its sequence of
      UTF-16 code units ([jsstring]).  [trim] removes the white space and
      line terminators of the language; [toLowerCase] is the ASCII folding
      on a string of ASCII characters and a parameter on any other string.
      Property names, labels and messages, which are only compared with
      fixed names or concatenated, stay plain strings.
    - Exceptions are an error monad [Result]; the component state touched by
      [fetchData] is threaded explicitly through the monad [M]. *)

From Stdlib Require Import QArith Lqa ZArith Ascii String.
From stdpp Require Import base list strings.

Set Warnings "-register-all".

Local Open Scope string_scope.
Local Open Scope list_scope.

(** ** JavaScript strings *)

(** A string is its sequence of UTF-16 code units. *)
Abbreviation jsstring := (list N).

(** The string written with the ASCII characters of [s]. *)
Definition lit (s : string) : jsstring :=
  List.map N_of_ascii (list_ascii_of_string s).

Arguments lit : simpl never.

(** [a === b] on strings. *)
Fixpoint eqb_js (a b : jsstring) : bool :=
  match a, b with
  | [], [] => true
  | x :: a', y :: b' => N.eqb x y && eqb_js a' b'
  | _, _ => false
  end.

(** ** JavaScript numbers and values *)

Inductive number : Type :=
  | NaN
  | NegInf
  | Fin (q : Q)
  | PosInf.

(** The abstract relational comparison [a < b] of ECMAScript on numbers:
    [None] stands for the result [undefined], produced when an operand is
    [NaN]. *)
Definition num_compare_lt (a b : number) : option bool :=
  match a, b with
  | NaN, _ | _, NaN => None
  | NegInf, NegInf => Some false
  | NegInf, _ => Some true
  | _, NegInf => Some false
  | PosInf, _ => Some false
  | _, PosInf => Some true
  | Fin x, Fin y => Some (negb (Qle_bool y x))
  end.

(** [a < b]: true only when the comparison answers true. *)
Definition num_lt (a b : number) : bool :=
  match num_compare_lt a b with
  | Some r => r
  | None => false
  end.

(** [a >= b]: the negation of [a < b], false when it is [undefined]. *)
Definition num_ge (a b : number) : bool :=
  match num_compare_lt a b with
  | Some r => negb r
  | None => false
  end.

Inductive JsVal : Type :=
  | JUndefined
  | JNull
  | JBool (b : bool)
  | JNum (n : number)
  | JStr (s : jsstring)
  | JArr (items : list JsVal)
  | JObj (fields : list (string * JsVal)).

(** Truthiness ([ToBoolean]). *)
Definition truthy (v : JsVal) : bool :=
  match v with
  | JUndefined | JNull => false
  | JBool b => b
  | JNum NaN => false
  | JNum (Fin q) => negb (Qeq_bool q 0)
  | JNum _ => true
  | JStr s => negb (eqb_js s (lit ""))
  | JArr _ | JObj _ => true
  end.

(** [a || b] on values. *)
Definition js_or (a b : JsVal) : JsVal := if truthy a then a else b.

(** ** Exceptions *)

Inductive JsError : Type :=
  | TypeError
  | SyntaxError
  | NetworkError
  | Error (message : string).

Inductive Result (A : Type) : Type :=
  | Ok (a : A)
  | Throw (e : JsError).

Arguments Ok {A} a.
Arguments Throw {A} e.

#[global] Instance Result_ret : MRet Result := fun A a => Ok a.

#[global] Instance Result_bind : MBind Result := fun A B k r =>
  match r with
  | Ok a => k a
  | Throw e => Throw e
  end.

(** [Array.prototype.map] with a callback that may throw: the first
    exception aborts the whole map. *)
Fixpoint map_result {A B : Type} (f : A -> Result B) (l : list A) : Result (list B) :=
  match l with
  | [] => Ok []
  | x :: rest =>
      y ← f x;
      ys ← map_result f rest;
      Ok (y :: ys)
  end.

(** ** Property access and destructuring *)

Fixpoint assoc (k : string) (fields : list (string * JsVal)) : JsVal :=
  match fields with
  | [] => JUndefined
  | (k', v) :: rest => if String.eqb k k' then v else assoc k rest
  end.

(** [v.k] for one of the data property names read by the component
    ([geometry], [coordinates], [properties], [place], [mag], [time], [id],
    [features]); none of them is defined on a built-in prototype. *)
Definition get (k : string) (v : JsVal) : Result JsVal :=
  match v with
  | JUndefined | JNull => Throw TypeError
  | JObj fields => Ok (assoc k fields)
  | JBool _ | JNum _ | JStr _ | JArr _ => Ok JUndefined
  end.

(** [v.length]. *)
Definition get_length (v : JsVal) : Result JsVal :=
  match v with
  | JUndefined | JNull => Throw TypeError
  | JArr items => Ok (JNum (Fin (inject_Z (Z.of_nat (List.length items)))))
  | JStr s => Ok (JNum (Fin (inject_Z (Z.of_nat (List.length s)))))
  | JObj fields => Ok (assoc "length" fields)
  | JBool _ | JNum _ => Ok JUndefined
  end.

(** [v === 0]. *)
Definition strict_eq_zero (v : JsVal) : bool :=
  match v with
  | JNum (Fin q) => Qeq_bool q 0
  | _ => false
  end.

Definition nth_or_undefined (i : nat) (items : list JsVal) : JsVal :=
  match items !! i with
  | Some v => v
  | None => JUndefined
  end.

Definition is_high_surrogate (c : N) : bool := (55296 <=? c)%N && (c <=? 56319)%N.

Definition is_low_surrogate (c : N) : bool := (56320 <=? c)%N && (c <=? 57343)%N.

(** The string iterator: one string per code point, a surrogate pair
    counting as one. *)
Fixpoint code_points (s : jsstring) : list jsstring :=
  match s with
  | [] => []
  | c :: rest =>
      match rest with
      | d :: rest' =>
          if is_high_surrogate c && is_low_surrogate d
          then [c; d] :: code_points rest'
          else [c] :: code_points rest
      | [] => [[c]]
      end
  end.

Definition chars (s : jsstring) : list JsVal := List.map JStr (code_points s).

(** [const [a, b] = v]: arrays and strings are iterable, anything else
    raises a [TypeError]. *)
Definition destructure2 (v : JsVal) : Result (JsVal * JsVal) :=
  match v with
  | JArr items => Ok (nth_or_undefined 0 items, nth_or_undefined 1 items)
  | JStr s => Ok (nth_or_undefined 0 (chars s), nth_or_undefined 1 (chars s))
  | _ => Throw TypeError
  end.

(** ** String built-ins *)

(** The code points of [WhiteSpace] and [LineTerminator]: tab, line feed,
    vertical tab, form feed, carriage return, space, no-break space, the
    other space separators, the line and paragraph separators and the byte
    order mark.  These are the characters [trim] removes. *)
Definition white_space_codes : list N :=
  [ 9; 10; 11; 12; 13; 32; 160; 5760;
    8192; 8193; 8194; 8195; 8196; 8197; 8198; 8199; 8200; 8201; 8202;
    8232; 8233; 8239; 8287; 12288; 65279 ]%N.

Definition is_white (c : N) : bool := existsb (N.eqb c) white_space_codes.

Arguments is_white : simpl never.

Fixpoint trimStart (s : jsstring) : jsstring :=
  match s with
  | [] => []
  | c :: rest => if is_white c then trimStart rest else s
  end.

Fixpoint trimEnd (s : jsstring) : jsstring :=
  match s with
  | [] => []
  | c :: rest =>
      match trimEnd rest with
      | [] => if is_white c then [] else [c]
      | t => c :: t
      end
  end.

Definition trim (s : jsstring) : jsstring := trimEnd (trimStart s).

Definition comma : N := 44%N.

(** [s.split(sep)] for a one-character separator. *)
Fixpoint split (sep : N) (s : jsstring) : list jsstring :=
  match s with
  | [] => [[]]
  | c :: rest =>
      if N.eqb c sep then [] :: split sep rest
      else match split sep rest with
           | [] => [[c]]
           | p :: ps => (c :: p) :: ps
           end
  end.

(** [l.join(sep)] for a one-character separator. *)
Fixpoint join (sep : N) (l : list jsstring) : jsstring :=
  match l with
  | [] => []
  | x :: rest =>
      match rest with
      | [] => x
      | _ :: _ => x ++ sep :: join sep rest
      end
  end.

Definition is_ascii (c : N) : bool := (c <? 128)%N.

(** The lower-case mapping of an ASCII character. *)
Definition lower_ascii (c : N) : N :=
  if ((65 <=? c)%N && (c <=? 90)%N) then (c + 32)%N else c.

(** [needle] is at the start of [hay]. *)
Fixpoint starts_with (needle hay : jsstring) : bool :=
  match needle, hay with
  | [], _ => true
  | x :: needle', y :: hay' => N.eqb x y && starts_with needle' hay'
  | _ :: _, [] => false
  end.

(** [hay.includes(needle)]. *)
Fixpoint includes (hay needle : jsstring) : bool :=
  starts_with needle hay ||
  match hay with
  | [] => false
  | _ :: rest => includes rest needle
  end.

(** [place.split(",").map(p => p.trim())]. *)
Definition place_parts (place : jsstring) : list jsstring :=
  List.map trim (split comma place).

(** ** The canonical record *)

Inductive Language : Type := en | hi | te.

Inductive Feed : Type := daily | weekly.

Inductive RangeFilter : Type :=
  | range_all
  | range_0_3
  | range_3_5
  | range_5_7
  | range_7_plus.

(** [type Earthquake].  The numeric fields hold whatever value the feed
    supplied: the normalizer copies them without a check. *)
Record Earthquake : Type := mkEarthquake {
  id : JsVal;
  place : jsstring;
  mag : JsVal;
  time : JsVal;
  lat : JsVal;
  lon : JsVal;
  country : option jsstring
}.

(** What the component takes from its environment: the registered country
    tables of [i18n-iso-countries], the label table of [../locales], the
    language's [ToNumber] on values that are not already numeric, and its
    [toLowerCase] on strings that hold a character outside ASCII. *)
Record Env : Type := mkEnv {
  countries_getAlpha2Code : jsstring -> Language -> option jsstring;
  countries_getName : jsstring -> Language -> option jsstring;
  translations_earthquakeData : Language -> string;
  toNumber_ext : JsVal -> number;
  toLowerCase_ext : jsstring -> jsstring
}.

(** ** Component state and the effects of [fetchData] *)

Record State : Type := mkState {
  earthquakes : list Earthquake;
  error : option string;
  console : list JsError
}.

(** [fetch(url)] resolves to a response or rejects; [res.json()] rejects
    with a [SyntaxError] when the body is not JSON. *)
Record Response : Type := mkResponse {
  ok : bool;
  statusText : string;
  json : Result JsVal
}.

Definition Network : Type := string -> Result Response.

Definition M (A : Type) : Type := State -> Result A * State.

#[global] Instance M_ret : MRet M := fun A a st => (Ok a, st).

#[global] Instance M_bind : MBind M := fun A B k m st =>
  match m st with
  | (Ok a, st') => k a st'
  | (Throw e, st') => (Throw e, st')
  end.

Definition lift {A : Type} (r : Result A) : M A := fun st => (r, st).

Definition throw {A : Type} (e : JsError) : M A := fun st => (Throw e, st).

Definition try_catch (body : M unit) (handler : JsError -> M unit) : M unit :=
  fun st =>
    match body st with
    | (Ok tt, st') => (Ok tt, st')
    | (Throw e, st') => handler e st'
    end.

Definition setError (msg : option string) : M unit :=
  fun st => (Ok tt, mkState (earthquakes st) msg (console st)).

Definition setEarthquakes (eqs : list Earthquake) : M unit :=
  fun st => (Ok tt, mkState eqs (error st) (console st)).

Definition console_error (e : JsError) : M unit :=
  fun st => (Ok tt, mkState (earthquakes st) (error st) (console st ++ [e])).

(** ** The pipeline *)

Section Model.

Variable env : Env.

(** [x || undefined] and [if (x)] on an optional string: the empty string
    is falsy. *)
Definition truthy_string (o : option jsstring) : option jsstring :=
  match o with
  | Some s => if eqb_js s (lit "") then None else Some s
  | None => None
  end.

(** [s.toLowerCase()]: on a string of ASCII characters the letters A-Z are
    folded, one by one, and nothing else changes. *)
Definition toLowerCase (s : jsstring) : jsstring :=
  if forallb is_ascii s then List.map lower_ascii s else toLowerCase_ext env s.

(** The receiver of [place.split(",")]: only a string has a [split]
    method; on any other value the call raises a [TypeError]. *)
Definition split_receiver (v : JsVal) : Result jsstring :=
  match v with
  | JStr s => Ok s
  | _ => Throw TypeError
  end.

(** Lines 126-131: the country code derived from a place string. *)
Definition countryCode_of (place : jsstring) : option jsstring :=
  let parts := place_parts place in
  if (1 <? List.length parts)%nat then
    match last parts with
    | Some lastPart => truthy_string (countries_getAlpha2Code env lastPart en)
    | None => None
    end
  else None.

(** Lines 122-142: the callback of [data.features.map]. *)
Definition normalize (f : JsVal) : Result Earthquake :=
  geometry ← get "geometry" f;
  coordinates ← get "coordinates" geometry;
  lonlat ← destructure2 coordinates;
  properties ← get "properties" f;
  rawPlace ← get "place" properties;
  place ← split_receiver (js_or rawPlace (JStr (lit "Unknown")));
  let countryCode := countryCode_of place in
  id ← get "id" f;
  mag ← get "mag" properties;
  time ← get "time" properties;
  Ok (mkEarthquake id place mag time (snd lonlat) (fst lonlat) countryCode).

(** The receiver of [data.features.map]: only an array has a callable
    [map]. *)
Definition map_receiver (v : JsVal) : Result (list JsVal) :=
  match v with
  | JArr items => Ok items
  | _ => Throw TypeError
  end.

Definition feed_url (feed : Feed) : string :=
  match feed with
  | daily => "https://earthquake.usgs.gov/earthquakes/feed/v1.0/summary/all_day.geojson"
  | weekly => "https://earthquake.usgs.gov/earthquakes/feed/v1.0/summary/all_week.geojson"
  end.

(** [!data.features || data.features.length === 0]. *)
Definition no_features (features : JsVal) : Result bool :=
  if truthy features then
    len ← get_length features;
    Ok (strict_eq_zero len)
  else Ok true.

(** Lines 106-144: the body of the [try] block. *)
Definition fetchData_try (net : Network) (feed : Feed) (language : Language) : M unit :=
  _ ← setError None;
  let url := feed_url feed in
  res ← lift (net url);
  if negb (ok res) then throw (Error ("Failed to fetch data: " +:+ statusText res))
  else
    data ← lift (json res);
    features ← lift (get "features" data);
    empty ← lift (no_features features);
    if (empty : bool) then
      _ ← setError (Some (translations_earthquakeData env language +:+ " not available."));
      setEarthquakes []
    else
      items ← lift (map_receiver features);
      eqs ← lift (map_result normalize items);
      setEarthquakes eqs.

(** Lines 104-150. *)
Definition fetchData (net : Network) (feed : Feed) (language : Language) : M unit :=
  try_catch (fetchData_try net feed language)
    (fun err =>
       _ ← console_error err;
       _ ← setError (Some (translations_earthquakeData env language +:+ " failed to load."));
       setEarthquakes []).

(** The state left by one run of [fetchData]. *)
Definition run_fetchData (net : Network) (feed : Feed) (language : Language)
    (st : State) : State :=
  snd (fetchData net feed language st).

(** Lines 154-158. *)
Definition formatCountry (language : Language) (eq : Earthquake) : jsstring :=
  match truthy_string (country eq) with
  | Some code =>
      match truthy_string (countries_getName env code language) with
      | Some name => name
      | None => code
      end
  | None =>
      let parts := place_parts (place eq) in
      match truthy_string (last parts) with
      | Some tail => tail
      | None => lit "Unknown"
      end
  end.

(** [ToNumber]. *)
Definition toNumber (v : JsVal) : number :=
  match v with
  | JUndefined => NaN
  | JNull => Fin 0
  | JBool b => Fin (if b then 1 else 0)
  | JNum n => n
  | JStr _ | JArr _ | JObj _ => toNumber_ext env v
  end.

(** [v < n] and [v >= n] against a numeric literal. *)
Definition js_lt (v : JsVal) (n : Q) : bool := num_lt (toNumber v) (Fin n).

Definition js_ge (v : JsVal) (n : Q) : bool := num_ge (toNumber v) (Fin n).

(** The callbacks of the four [case] arms of [applyFilter]. *)
Definition in_range (filter : RangeFilter) (e : Earthquake) : bool :=
  match filter with
  | range_0_3 => js_lt (mag e) 3
  | range_3_5 => js_ge (mag e) 3 && js_lt (mag e) 5
  | range_5_7 => js_ge (mag e) 5 && js_lt (mag e) 7
  | range_7_plus => js_ge (mag e) 7
  | range_all => true
  end.

(** The callback of the search filter. *)
Definition matches (searchTerm : jsstring) (e : Earthquake) : bool :=
  includes (toLowerCase (place e)) (toLowerCase searchTerm).

(** Lines 160-171. *)
Definition applyFilter (filter : RangeFilter) (searchTerm : jsstring)
    (eqs : list Earthquake) : list Earthquake :=
  let filtered := eqs in
  let filtered :=
    match filter with
    | range_0_3 => List.filter (in_range range_0_3) filtered
    | range_3_5 => List.filter (in_range range_3_5) filtered
    | range_5_7 => List.filter (in_range range_5_7) filtered
    | range_7_plus => List.filter (in_range range_7_plus) filtered
    | range_all => filtered
    end in
  if negb (eqb_js (trim searchTerm) (lit ""))
  then List.filter (matches searchTerm) filtered
  else filtered.

(** [l.slice(start, stop)] on integer arguments. *)
Definition slice {A : Type} (start stop : Z) (l : list A) : list A :=
  let len := Z.of_nat (List.length l) in
  let k := if (start <? 0)%Z then Z.max (len + start) 0 else Z.min start len in
  let final := if (stop <? 0)%Z then Z.max (len + stop) 0 else Z.min stop len in
  take (Z.to_nat (final - k)) (drop (Z.to_nat k) l).

Definition pageSize : nat := 10.

(** Line 174. *)
Definition paginatedData (page : nat) (filteredData : list Earthquake) : list Earthquake :=
  slice 0 (Z.of_nat (page * pageSize)) filteredData.

End Model.

(** ** Sample environment and feed records

    A two-entry excerpt of the English country table and the labels of the
    English locale, used to run the model on concrete inputs. *)

Definition sample_getAlpha2Code (name : jsstring) (lang : Language) : option jsstring :=
  match lang with
  | en =>
      if eqb_js (List.map lower_ascii name) (lit "japan") then Some (lit "JP")
      else if eqb_js (List.map lower_ascii name) (lit "chile") then Some (lit "CL")
      else None
  | _ => None
  end.

Definition sample_getName (code : jsstring) (lang : Language) : option jsstring :=
  match lang with
  | en =>
      if eqb_js code (lit "JP") then Some (lit "Japan")
      else if eqb_js code (lit "CL") then Some (lit "Chile")
      else None
  | _ => None
  end.

Definition sample_env : Env :=
  mkEnv sample_getAlpha2Code sample_getName (fun _ => "Earthquake Data")
    (fun _ => NaN) (List.map lower_ascii).

Definition feature (i : string) (coords : JsVal) (props : list (string * JsVal)) : JsVal :=
  JObj [("id", JStr (lit i));
        ("geometry", JObj [("coordinates", coords)]);
        ("properties", JObj props)].

Definition jnum (q : Q) : JsVal := JNum (Fin q).

(** The feature of the end-to-end scenario. *)
Definition ev1 : JsVal :=
  feature "ev1" (JArr [jnum 139.7; jnum 35.7])
    [("place", JStr (lit "10km SE of Tokyo, Japan")); ("mag", jnum 4.2);
     ("time", jnum 1700000000000)].

(** A feature without [properties.mag]. *)
Definition ev_no_mag : JsVal :=
  feature "ev2" (JArr [jnum 135.5; jnum 34.7])
    [("place", JStr (lit "20km N of Osaka, Japan")); ("time", jnum 1700000001000)].

(** A feature whose place is the empty string. *)
Definition ev_empty_place : JsVal :=
  feature "ev4" (JArr [jnum 10; jnum 20]) [("place", JStr (lit "")); ("mag", jnum 2)].

(** A feature without [geometry]. *)
Definition ev_no_geometry : JsVal :=
  JObj [("id", JStr (lit "ev3"));
        ("properties", JObj [("place", JStr (lit "Fiji region")); ("mag", jnum 5)])].

Definition respond (status : string) (isOk : bool) (body : JsVal) : Network :=
  fun _ => Ok (mkResponse isOk status (Ok body)).

Definition initial_state : State := mkState [] None [].

Definition quake (i p : string) (m : Q) (c : option string) : Earthquake :=
  mkEarthquake (JStr (lit i)) (lit p) (jnum m) (jnum 1700000000000) (jnum 0) (jnum 0)
    (option_map lit c).

Definition quake_tokyo : Earthquake :=
  quake "a" "10km SE of Tokyo, Japan" 4.2 (Some "JP").

Definition quake_fiji : Earthquake := quake "b" "Fiji region" 5 None.

Definition quake_osaka : Earthquake :=
  quake "c" "20km N of Osaka, JAPAN" 7.1 (Some "JP").

Definition quake_cobb : Earthquake := quake "d" "3km W of Cobb, CA" 0.9 None.

Definition sample_quakes : list Earthquake :=
  [quake_tokyo; quake_fiji; quake_osaka; quake_cobb].

(** [v.k] when the access does not raise. *)
Definition field (k : string) (v : JsVal) : JsVal :=
  match get k v with
  | Ok x => x
  | Throw _ => JUndefined
  end.

Definition nullish (v : JsVal) : bool :=
  match v with
  | JUndefined | JNull => true
  | _ => false
  end.

Definition iterable (v : JsVal) : bool :=
  match v with
  | JArr _ | JStr _ => true
  | _ => false
  end.

Definition is_string (v : JsVal) : bool :=
  match v with
  | JStr _ => true
  | _ => false
  end.

(** The shape of a record on which the callback of [data.features.map]
    does not raise: [geometry.coordinates] is an array or a string,
    [properties] is neither [undefined] nor [null], and [properties.place]
    is falsy or a string.  Nothing is asked of [id], [mag] or [time]. *)
Definition readable (f : JsVal) : bool :=
  negb (nullish f) &&
  negb (nullish (field "geometry" f)) &&
  iterable (field "coordinates" (field "geometry" f)) &&
  negb (nullish (field "properties" f)) &&
  (negb (truthy (field "place" (field "properties" f))) ||
   is_string (field "place" (field "properties" f))).

(** The place kept for a readable record. *)
Definition place_of (f : JsVal) : jsstring :=
  match js_or (field "place" (field "properties" f)) (JStr (lit "Unknown")) with
  | JStr s => s
  | _ => lit "Unknown"
  end.

(** The two leading entries of [geometry.coordinates]. *)
Definition lonlat_of (f : JsVal) : JsVal * JsVal :=
  match destructure2 (field "coordinates" (field "geometry" f)) with
  | Ok ll => ll
  | Throw _ => (JUndefined, JUndefined)
  end.

(** The record emitted for a readable feature. *)
Definition emitted (env : Env) (f : JsVal) : Earthquake :=
  mkEarthquake (field "id" f) (place_of f)
    (field "mag" (field "properties" f)) (field "time" (field "properties" f))
    (snd (lonlat_of f)) (fst (lonlat_of f)) (countryCode_of env (place_of f)).

(** The characters of a search text are all white space. *)
Definition blank (s : jsstring) : bool := forallb is_white s.

(** ** Vocabulary of the statements about text

    The definitions below are not taken from the source: they say, in terms
    of the characters of a string, what the statements about white space,
    letter case and comma-separated segments mean. *)

(** [c] is one of the white space characters. *)
Definition white (c : N) : Prop := c ∈ white_space_codes.

(** [t] is [s] without the white space at its two ends: [s] is [t] between
    two runs of white space, and [t] neither starts nor ends with white
    space. *)
Definition stripped (s t : jsstring) : Prop :=
  exists l r, s = l ++ t ++ r /\ Forall white l /\ Forall white r /\
    (forall c rest, t = c :: rest -> ~ white c) /\
    (forall front c, t = front ++ [c] -> ~ white c).

(** [seg] is the text after the last comma of [p], or the whole of [p]
    when [p] has no comma. *)
Definition last_segment (p seg : jsstring) : Prop :=
  (comma ∉ seg) /\ (p = seg \/ exists before, p = before ++ comma :: seg).

(** Every character of [s] is an ASCII character. *)
Definition ascii_text (s : jsstring) : Prop := Forall (fun c => (c < 128)%N) s.



(** The four magnitude buckets offered by the range selector. *)
Definition buckets : list RangeFilter := [range_0_3; range_3_5; range_5_7; range_7_plus].

(** ** Rendering and the view state *)

(** [a && b] on values. *)
Definition js_and (a b : JsVal) : JsVal := if truthy a then b else a.

(** A call of the map widget. *)
Inductive MapCommand : Type :=
  | flyTo (lat lon : JsVal) (zoom : Z) (duration : Q).

(** Lines 40-46: the effect run by [FlyToLocation]. *)
Definition FlyToLocation (lat lon : JsVal) : list MapCommand :=
  if truthy (js_and lat lon) then [flyTo lat lon 6 1.5] else [].

(** Lines 178-186, on the values the [filter] state can hold. *)
Definition getFilterColor (range : RangeFilter) : string :=
  match range with
  | range_0_3 => "green"
  | range_3_5 => "gold"
  | range_5_7 => "orange"
  | range_7_plus => "red"
  | range_all => "#FF9800"
  end.

(** The properties of one [CircleMarker] (lines 261-266). *)
Record Marker : Type := mkMarker {
  key : JsVal;
  center : JsVal * JsVal;
  color : string;
  fillColor : string
}.

(** The [useState] cells of the component other than [earthquakes] and
    [error] (lines 93-101). *)
Record View : Type := mkView {
  language : Language;
  showTable : bool;
  filter : RangeFilter;
  page : nat;
  selectedEq : option Earthquake;
  searchTerm : jsstring;
  searchInput : jsstring;
  feed : Feed
}.

Definition initial_view : View :=
  mkView en false range_all 1 None (lit "") (lit "") weekly.

(** The event handlers of the component. *)
Inductive Action : Type :=
  | TypeSearch (text : jsstring)
  | ClickSearch
  | SelectFilter (range : RangeFilter)
  | ClickLoadMore
  | OpenTable
  | CloseTable
  | ClickRow (eq : Earthquake)
  | SelectFeed (f : Feed)
  | SelectLanguage (l : Language).

(** What each handler does to the view (lines 176, 201, 206-209, 216, 232,
    288, 329, 340). *)
Definition handle (a : Action) (v : View) : View :=
  match a with
  | TypeSearch text =>
      mkView (language v) (showTable v) (filter v) (page v) (selectedEq v)
        (searchTerm v) text (feed v)
  | ClickSearch =>
      mkView (language v) (showTable v) (filter v) 1 (selectedEq v)
        (searchInput v) (searchInput v) (feed v)
  | SelectFilter range =>
      mkView (language v) (showTable v) range 1 (selectedEq v)
        (searchTerm v) (searchInput v) (feed v)
  | ClickLoadMore =>
      mkView (language v) (showTable v) (filter v) (page v + 1) (selectedEq v)
        (searchTerm v) (searchInput v) (feed v)
  | OpenTable =>
      mkView (language v) true (filter v) (page v) (selectedEq v)
        (searchTerm v) (searchInput v) (feed v)
  | CloseTable =>
      mkView (language v) false (filter v) (page v) (selectedEq v)
        (searchTerm v) (searchInput v) (feed v)
  | ClickRow eq =>
      mkView (language v) false (filter v) (page v) (Some eq)
        (searchTerm v) (searchInput v) (feed v)
  | SelectFeed f =>
      mkView (language v) (showTable v) (filter v) (page v) (selectedEq v)
        (searchTerm v) (searchInput v) f
  | SelectLanguage l =>
      mkView l (showTable v) (filter v) (page v) (selectedEq v)
        (searchTerm v) (searchInput v) (feed v)
  end.

Section Rendering.

Variable env : Env.

(** Lines 32-37. *)
Definition getColor (mag : JsVal) : string :=
  if js_lt env mag 3 then "green"
  else if js_lt env mag 5 then "gold"
  else if js_lt env mag 7 then "orange"
  else "red".

(** Line 173. *)
Definition filteredData (eqs : list Earthquake) (v : View) : list Earthquake :=
  applyFilter env (filter v) (searchTerm v) eqs.

(** Line 174: the rows of the table. *)
Definition visibleRows (eqs : list Earthquake) (v : View) : list Earthquake :=
  paginatedData (page v) (filteredData eqs v).

(** Lines 260-277: one marker per filtered event. *)
Definition markers (eqs : list Earthquake) (v : View) : list Marker :=
  List.map
    (fun eq => mkMarker (id eq) (lat eq, lon eq) (getColor (mag eq)) (getColor (mag eq)))
    (filteredData eqs v).

(** Line 339: the condition under which the Load More button exists. *)
Definition loadMore_shown (eqs : list Earthquake) (v : View) : bool :=
  (page v * pageSize <? List.length (filteredData eqs v))%nat.

(** Which handlers can fire in a rendered view: the buttons of the table
    modal exist only while [showTable] holds, Load More only under its
    condition, and a row only for a visible record. *)
Definition rendered (eqs : list Earthquake) (v : View) (a : Action) : Prop :=
  match a with
  | ClickLoadMore => showTable v = true /\ loadMore_shown eqs v = true
  | CloseTable => showTable v = true
  | ClickRow eq => showTable v = true /\ eq ∈ visibleRows eqs v
  | _ => True
  end.

(** A sequence of handler calls, each one possible when it fires, over an
    unchanged event collection. *)
Fixpoint session (eqs : list Earthquake) (v : View) (actions : list Action) : Prop :=
  match actions with
  | [] => True
  | a :: rest => rendered eqs v a /\ session eqs (handle a v) rest
  end.

End Rendering.

(** Line 279: the map command following from the selection. *)
Definition fly_commands (v : View) : list MapCommand :=
  match selectedEq v with
  | Some eq => FlyToLocation (lat eq) (lon eq)
  | None => []
  end.

(** The three ways a run of [fetchData] can end. *)
Inductive Outcome : Type :=
  | Failed (e : JsError)
  | NoData
  | Loaded (eqs : list Earthquake).

(** The state a run ending in a given way leaves behind. *)
Definition settle (env : Env) (lang : Language) (o : Outcome) (st : State) : State :=
  match o with
  | Failed e =>
      mkState [] (Some (translations_earthquakeData env lang +:+ " failed to load."))
        (console st ++ [e])
  | NoData =>
      mkState [] (Some (translations_earthquakeData env lang +:+ " not available."))
        (console st)
  | Loaded eqs => mkState eqs None (console st)
  end.

(** * Properties *)

(** ** The error monad *)

Ltac unfold_bind := unfold mbind, mret, Result_bind, Result_ret, M_bind, M_ret in *.

Lemma bind_Ok {A B : Type} (a : A) (k : A -> Result B) : (Ok a ≫= k) = k a.
Proof. reflexivity. Qed.

Lemma bind_Throw {A B : Type} (e : JsError) (k : A -> Result B) :
  (Throw e ≫= k) = Throw e.
Proof. reflexivity. Qed.

Lemma bind_Ok_inv {A B : Type} (r : Result A) (k : A -> Result B) (b : B) :
  (r ≫= k) = Ok b -> exists a, r = Ok a /\ k a = Ok b.
Proof.
  destruct r as [a | e]; unfold_bind; intros H.
  - exists a. split; [reflexivity | exact H].
  - discriminate H.
Qed.

(** [map] emits one element per input element, in order, or nothing. *)
Lemma map_result_Forall2 {A B : Type} (f : A -> Result B) (l : list A) (out : list B) :
  map_result f l = Ok out -> Forall2 (fun x y => f x = Ok y) l out.
Proof.
  revert out. induction l as [| x rest IH]; intros out H; cbn in H.
  - injection H as <-. constructor.
  - apply bind_Ok_inv in H as (y & Hy & H).
    apply bind_Ok_inv in H as (ys & Hys & H).
    injection H as <-. constructor; [exact Hy | apply IH; exact Hys].
Qed.

Lemma map_result_Ok {A B : Type} (f : A -> Result B) (l : list A) (out : list B) :
  Forall2 (fun x y => f x = Ok y) l out -> map_result f l = Ok out.
Proof.
  induction 1 as [| x y l out Hxy _ IH]; cbn.
  - reflexivity.
  - rewrite Hxy, bind_Ok, IH. reflexivity.
Qed.

Lemma map_result_Throw {A B : Type} (f : A -> Result B) (l : list A) (x : A) (e : JsError) :
  x ∈ l -> f x = Throw e -> exists e', map_result f l = Throw e'.
Proof.
  induction l as [| y rest IH]; intros Hin Hx.
  - inversion Hin.
  - cbn. destruct (f y) as [b | e0] eqn:Hy.
    + rewrite bind_Ok. apply list_elem_of_In in Hin. destruct Hin as [-> | Hin].
      * congruence.
      * apply list_elem_of_In in Hin. destruct (IH Hin Hx) as (e' & ->).
        exists e'. reflexivity.
    + exists e0. reflexivity.
Qed.

(** ** Property access *)

Lemma get_field (k k' : string) (v x : JsVal) :
  get k v = Ok x -> get k' v = Ok (field k' v).
Proof.
  unfold field. destruct v; cbn; intros H; try discriminate H; reflexivity.
Qed.

Lemma get_Ok_field (k : string) (v x : JsVal) : get k v = Ok x -> x = field k v.
Proof. unfold field. intros ->. reflexivity. Qed.

(** ** The normalizer *)

Section NormalizerFacts.

Variable env : Env.

(** A record whose [geometry.coordinates] can be destructured and whose
    [properties] can be read, with a place that is falsy or a string, is
    turned into exactly one record. *)
Lemma normalize_readable (f geometry coordinates properties rawPlace : JsVal)
    (lonlat : JsVal * JsVal) (p : jsstring) :
  get "geometry" f = Ok geometry ->
  get "coordinates" geometry = Ok coordinates ->
  destructure2 coordinates = Ok lonlat ->
  get "properties" f = Ok properties ->
  get "place" properties = Ok rawPlace ->
  split_receiver (js_or rawPlace (JStr (lit "Unknown"))) = Ok p ->
  normalize env f =
    Ok (mkEarthquake (field "id" f) p (field "mag" properties)
          (field "time" properties) (snd lonlat) (fst lonlat)
          (countryCode_of env p)).
Proof.
  intros Hg Hc Hd Hp Hr Hs. unfold normalize.
  rewrite Hg, bind_Ok, Hc, bind_Ok, Hd, bind_Ok, Hp, bind_Ok, Hr, bind_Ok, Hs, bind_Ok.
  rewrite (get_field _ "id" _ _ Hg), bind_Ok.
  rewrite (get_field _ "mag" _ _ Hr), bind_Ok.
  rewrite (get_field _ "time" _ _ Hr), bind_Ok.
  reflexivity.
Qed.

(** Whatever record comes out has copied [properties.mag] unchanged and
    derived the country code from its own place. *)
Lemma normalize_Ok_inv (f : JsVal) (e : Earthquake) :
  normalize env f = Ok e ->
  exists properties rawPlace,
    get "properties" f = Ok properties /\
    get "place" properties = Ok rawPlace /\
    split_receiver (js_or rawPlace (JStr (lit "Unknown"))) = Ok (place e) /\
    id e = field "id" f /\
    mag e = field "mag" properties /\
    time e = field "time" properties /\
    country e = countryCode_of env (place e).
Proof.
  unfold normalize. intros H.
  apply bind_Ok_inv in H as (g & Hg & H).
  apply bind_Ok_inv in H as (c & Hc & H).
  apply bind_Ok_inv in H as (ll & Hd & H).
  apply bind_Ok_inv in H as (props & Hp & H).
  apply bind_Ok_inv in H as (rp & Hr & H).
  apply bind_Ok_inv in H as (p & Hs & H).
  apply bind_Ok_inv in H as (i & Hi & H).
  apply bind_Ok_inv in H as (m & Hm & H).
  apply bind_Ok_inv in H as (t & Ht & H).
  injection H as <-. cbn.
  exists props, rp. repeat split; try assumption.
  - apply (get_Ok_field _ _ _ Hi).
  - apply (get_Ok_field _ _ _ Hm).
  - apply (get_Ok_field _ _ _ Ht).
Qed.

Lemma split_receiver_place (rawPlace : JsVal) :
  split_receiver (js_or rawPlace (JStr (lit "Unknown"))) =
    if negb (truthy rawPlace) || is_string rawPlace
    then Ok (match js_or rawPlace (JStr (lit "Unknown")) with
             | JStr s => s
             | _ => lit "Unknown"
             end)
    else Throw TypeError.
Proof.
  unfold js_or. destruct rawPlace as [| | b | n | s | items | fields]; cbn;
    try reflexivity.
  - destruct b; reflexivity.
  - destruct n as [| | q |]; cbn; try reflexivity.
    destruct (Qeq_bool q 0); reflexivity.
  - rewrite orb_true_r. destruct (eqb_js s (lit "")); reflexivity.
Qed.

(** [normalize] emits a record exactly for the readable features and
    raises a [TypeError] on every other one. *)
Lemma normalize_spec (f : JsVal) :
  normalize env f = if readable f then Ok (emitted env f) else Throw TypeError.
Proof.
  unfold readable, emitted, place_of, lonlat_of, normalize, field.
  destruct f as [| | b | n | s | items | fields]; try reflexivity.
  cbn [get nullish negb andb]. rewrite bind_Ok.
  destruct (assoc "geometry" fields) as [| | b | n | s | gi | gf]; try reflexivity;
    cbn [get nullish negb andb destructure2 iterable]; rewrite ?bind_Ok, ?bind_Throw;
    try reflexivity.
  destruct (assoc "coordinates" gf) as [| | b | n | s | ci | cf];
    cbn [get nullish negb andb destructure2 iterable]; rewrite ?bind_Ok, ?bind_Throw;
    try reflexivity;
    (destruct (assoc "properties" fields) as [| | b' | n' | s' | pi | pf];
     cbn [get nullish negb andb]; rewrite ?bind_Ok, ?bind_Throw; try reflexivity;
     rewrite split_receiver_place;
     match goal with
     | |- context [if ?c then Ok _ else _] => destruct c
     end; rewrite ?bind_Ok, ?bind_Throw; reflexivity).
Qed.


End NormalizerFacts.

(** ** The outcomes of [fetchData] *)

Section FetchFacts.

Variable env : Env.
Variables (net : Network) (feed : Feed) (language : Language) (st : State).

Let label : string := translations_earthquakeData env language.

Ltac run_fetch :=
  unfold run_fetchData, fetchData, try_catch, fetchData_try;
  unfold mbind, M_bind, lift, throw, setError, setEarthquakes, console_error.

(** The request itself fails. *)
Lemma run_fetchData_rejected (e : JsError) :
  net (feed_url feed) = Throw e ->
  run_fetchData env net feed language st =
    mkState [] (Some (label +:+ " failed to load.")) (console st ++ [e]).
Proof. intros H. run_fetch. rewrite H. reflexivity. Qed.

(** The response has a non-success status. *)
Lemma run_fetchData_not_ok (res : Response) :
  net (feed_url feed) = Ok res ->
  ok res = false ->
  run_fetchData env net feed language st =
    mkState [] (Some (label +:+ " failed to load."))
      (console st ++ [Error ("Failed to fetch data: " +:+ statusText res)]).
Proof. intros H Hok. run_fetch. rewrite H. cbn. rewrite Hok. reflexivity. Qed.

(** The body is not JSON, or has no readable [features]. *)
Lemma run_fetchData_bad_body (res : Response) (e : JsError) :
  net (feed_url feed) = Ok res ->
  ok res = true ->
  (json res ≫= get "features") = Throw e ->
  run_fetchData env net feed language st =
    mkState [] (Some (label +:+ " failed to load.")) (console st ++ [e]).
Proof.
  intros H Hok Hbody. run_fetch. rewrite H. cbn. rewrite Hok. cbn.
  destruct (json res) as [data | e0]; cbn in *.
  - unfold mbind, Result_bind in Hbody. rewrite Hbody. reflexivity.
  - injection Hbody as ->. reflexivity.
Qed.

(** The feature list is missing or empty. *)
Lemma run_fetchData_no_data (res : Response) (features : JsVal) :
  net (feed_url feed) = Ok res ->
  ok res = true ->
  (json res ≫= get "features") = Ok features ->
  no_features features = Ok true ->
  run_fetchData env net feed language st =
    mkState [] (Some (label +:+ " not available.")) (console st).
Proof.
  intros H Hok Hbody Hno. apply bind_Ok_inv in Hbody as (data & Hdata & Hf).
  run_fetch. rewrite H. cbn. rewrite Hok. cbn. rewrite Hdata, Hf, Hno. reflexivity.
Qed.

(** Every feature was normalized. *)
Lemma run_fetchData_loaded (res : Response) (items : list JsVal)
    (eqs : list Earthquake) :
  net (feed_url feed) = Ok res ->
  ok res = true ->
  (json res ≫= get "features") = Ok (JArr items) ->
  items <> [] ->
  map_result (normalize env) items = Ok eqs ->
  run_fetchData env net feed language st = mkState eqs None (console st).
Proof.
  intros H Hok Hbody Hne Hmap. apply bind_Ok_inv in Hbody as (data & Hdata & Hf).
  run_fetch. rewrite H. cbn. rewrite Hok. cbn. rewrite Hdata, Hf.
  destruct items as [| f rest]; [congruence |].
  cbn in *. rewrite Hmap. reflexivity.
Qed.

(** The callback raised on some feature: the whole run fails. *)
Lemma run_fetchData_aborted (res : Response) (items : list JsVal) (e : JsError) :
  net (feed_url feed) = Ok res ->
  ok res = true ->
  (json res ≫= get "features") = Ok (JArr items) ->
  map_result (normalize env) items = Throw e ->
  run_fetchData env net feed language st =
    mkState [] (Some (label +:+ " failed to load.")) (console st ++ [e]).
Proof.
  intros H Hok Hbody Hmap. apply bind_Ok_inv in Hbody as (data & Hdata & Hf).
  run_fetch. rewrite H. cbn. rewrite Hok. cbn. rewrite Hdata, Hf.
  destruct items as [| f rest]; [cbn in Hmap; discriminate Hmap |].
  cbn in *. rewrite Hmap. reflexivity.
Qed.

End FetchFacts.

(** ** Strings *)

Lemma eqb_js_eq (a b : jsstring) : eqb_js a b = true <-> a = b.
Proof.
  revert b. induction a as [| x a IH]; intros [| y b]; cbn; try (split; congruence).
  rewrite andb_true_iff, N.eqb_eq, IH. split; [intros [-> ->]; reflexivity |].
  intros H. injection H as -> ->. split; reflexivity.
Qed.

Lemma eqb_js_empty (s : jsstring) : eqb_js s (lit "") = true <-> s = [].
Proof. apply (eqb_js_eq s []). Qed.

Lemma is_white_spec (c : N) : is_white c = true <-> c ∈ white_space_codes.
Proof.
  unfold is_white. rewrite existsb_exists. split.
  - intros (x & Hin & Hx). apply N.eqb_eq in Hx as ->. apply list_elem_of_In, Hin.
  - intros Hin. exists c. split; [apply list_elem_of_In, Hin | apply N.eqb_refl].
Qed.

Lemma split_not_nil (sep : N) (s : jsstring) : split sep s <> [].
Proof.
  destruct s as [| c rest]; cbn; [discriminate |].
  destruct (N.eqb c sep); [discriminate |].
  destruct (split sep rest); discriminate.
Qed.

(** Joining the segments with the separator gives the string back. *)
Lemma join_split (sep : N) (s : jsstring) : join sep (split sep s) = s.
Proof.
  induction s as [| c rest IH]; [reflexivity |].
  cbn [split]. pose proof (split_not_nil sep rest) as Hne.
  destruct (N.eqb c sep) eqn:Hc.
  - apply N.eqb_eq in Hc as ->.
    destruct (split sep rest) as [| p ps] eqn:Hs; [congruence |].
    cbn [join app]. f_equal. exact IH.
  - destruct (split sep rest) as [| p ps] eqn:Hs; [congruence |].
    destruct ps as [| q qs]; cbn in *; rewrite <- IH; reflexivity.
Qed.

(** No segment contains the separator. *)
Lemma split_no_sep (sep : N) (s : jsstring) :
  Forall (fun p => sep ∉ p) (split sep s).
Proof.
  induction s as [| c rest IH]; cbn.
  - constructor; [| constructor]. apply not_elem_of_nil.
  - destruct (N.eqb c sep) eqn:Hc.
    + constructor; [| exact IH]. apply not_elem_of_nil.
    + apply N.eqb_neq in Hc.
      destruct (split sep rest) as [| p ps]; cbn.
      * constructor; [| constructor]. intros Hin.
        apply list_elem_of_singleton in Hin. congruence.
      * inversion IH as [| ? ? Hp Hps]; subst. constructor; [| exact Hps].
        intros Hin. apply elem_of_cons in Hin as [-> | Hin]; [congruence |].
        exact (Hp Hin).
Qed.

(** There is one more segment than there are separators. *)
Lemma length_split (sep : N) (s : jsstring) :
  List.length (split sep s) = S (List.length (List.filter (N.eqb sep) s)).
Proof.
  induction s as [| c rest IH]; cbn; [reflexivity |].
  rewrite (N.eqb_sym sep c).
  destruct (N.eqb c sep); cbn.
  - rewrite IH. reflexivity.
  - pose proof (split_not_nil sep rest) as Hne.
    destruct (split sep rest) as [| p ps]; [congruence |]. cbn in *. exact IH.
Qed.

(** A string without the separator is its own single segment. *)
Lemma split_without_sep (sep : N) (s : jsstring) : sep ∉ s -> split sep s = [s].
Proof.
  induction s as [| c rest IH]; cbn; intros Hnot; [reflexivity |].
  destruct (N.eqb c sep) eqn:Hc.
  - apply N.eqb_eq in Hc as ->. exfalso. apply Hnot. apply elem_of_cons. left. reflexivity.
  - rewrite IH; [reflexivity |]. intros Hin. apply Hnot. apply elem_of_cons. right. exact Hin.
Qed.

Lemma several_segments_iff (sep : N) (s : jsstring) :
  (1 < List.length (split sep s))%nat <-> sep ∈ s.
Proof.
  split.
  - intros Hlen. destruct (decide (sep ∈ s)) as [Hin | Hnot]; [exact Hin |].
    rewrite (split_without_sep _ _ Hnot) in Hlen. cbn in Hlen. lia.
  - intros Hin. rewrite length_split.
    induction s as [| c l IH]; [inversion Hin |].
    cbn. apply elem_of_cons in Hin as [<- | Hin].
    + rewrite N.eqb_refl. cbn. lia.
    + destruct (N.eqb sep c); cbn; [lia | apply IH, Hin].
Qed.

Lemma trimStart_empty_iff (s : jsstring) : trimStart s = [] <-> blank s = true.
Proof.
  unfold blank. induction s as [| c rest IH]; cbn; [tauto |].
  destruct (is_white c); cbn; [exact IH |]. split; discriminate.
Qed.

Lemma trimEnd_empty_iff (s : jsstring) : trimEnd s = [] <-> blank s = true.
Proof.
  unfold blank. induction s as [| c rest IH]; cbn; [tauto |].
  destruct (trimEnd rest) eqn:Ht.
  - destruct (is_white c); cbn.
    + split; [intros _; apply IH; reflexivity | reflexivity].
    + split; discriminate.
  - split; [discriminate |]. intros H. apply andb_true_iff in H as [_ H].
    apply IH in H. discriminate H.
Qed.

Lemma blank_trimStart (s : jsstring) : blank (trimStart s) = blank s.
Proof.
  unfold blank. induction s as [| c rest IH]; cbn; [reflexivity |].
  destruct (is_white c) eqn:Hc; cbn; [exact IH |]. rewrite Hc. reflexivity.
Qed.

(** [trim] leaves nothing exactly when every character is white space. *)
Lemma trim_empty_iff (s : jsstring) : trim s = [] <-> blank s = true.
Proof. unfold trim. rewrite trimEnd_empty_iff, blank_trimStart. reflexivity. Qed.

Lemma blank_spec (s : jsstring) :
  blank s = true <-> Forall (fun c => c ∈ white_space_codes) s.
Proof.
  unfold blank. rewrite forallb_forall, Forall_forall. split.
  - intros H c Hin. apply is_white_spec, H, list_elem_of_In, Hin.
  - intros H c Hin. apply is_white_spec, H, list_elem_of_In, Hin.
Qed.

Lemma starts_with_spec (n h : jsstring) :
  starts_with n h = true <-> exists post, h = n ++ post.
Proof.
  revert h. induction n as [| c n IH]; intros h.
  - split; [intros _; exists h; reflexivity | intros _; destruct h; reflexivity].
  - destruct h as [| d h]; cbn.
    + split; [discriminate | intros (post & H); discriminate H].
    + rewrite andb_true_iff, N.eqb_eq, IH. split.
      * intros [-> (post & ->)]. exists post. reflexivity.
      * intros (post & H). injection H as -> ->. split; [reflexivity |].
        exists post. reflexivity.
Qed.

Lemma includes_unfold (h n : jsstring) :
  includes h n =
  starts_with n h || match h with
                     | [] => false
                     | _ :: rest => includes rest n
                     end.
Proof. destruct h; reflexivity. Qed.

(** [includes] is the substring test. *)
Lemma includes_spec (h n : jsstring) :
  includes h n = true <-> exists pre post, h = pre ++ n ++ post.
Proof.
  induction h as [| c h IH]; rewrite includes_unfold.
  - rewrite orb_false_r, starts_with_spec. split.
    + intros (post & H). exists [], post. exact H.
    + intros (pre & post & H). destruct pre; [exists post; exact H |].
      discriminate H.
  - rewrite orb_true_iff, starts_with_spec, IH. split.
    + intros [(post & H) | (pre & post & H)].
      * exists [], post. exact H.
      * exists (c :: pre), post. cbn. rewrite H. reflexivity.
    + intros (pre & post & H). destruct pre as [| d pre].
      * left. exists post. exact H.
      * right. exists pre, post. cbn in H. congruence.
Qed.

(** *** White space and [trim] *)

Lemma is_white_false (c : N) : is_white c = false <-> ~ white c.
Proof.
  unfold white. rewrite <- is_white_spec. destruct (is_white c); split; congruence.
Qed.

Lemma trimStart_white_app (l x : jsstring) :
  Forall white l -> trimStart (l ++ x) = trimStart x.
Proof.
  induction 1 as [| c l Hc _ IH]; [reflexivity |].
  cbn. apply is_white_spec in Hc. rewrite Hc. exact IH.
Qed.

Lemma trimEnd_white (r : jsstring) : Forall white r -> trimEnd r = [].
Proof. intros H. apply trimEnd_empty_iff, blank_spec, H. Qed.

Lemma trimEnd_app_white (u r : jsstring) :
  Forall white r -> trimEnd (u ++ r) = trimEnd u.
Proof.
  intros Hr. induction u as [| c u IH]; cbn.
  - apply trimEnd_white, Hr.
  - rewrite IH. reflexivity.
Qed.

Lemma trimEnd_ends_black (front : jsstring) (c : N) :
  ~ white c -> trimEnd (front ++ [c]) = front ++ [c].
Proof.
  intros Hc. apply is_white_false in Hc.
  induction front as [| x front IH]; cbn.
  - rewrite Hc. reflexivity.
  - rewrite IH. destruct front; reflexivity.
Qed.

(** What is stripped of its white space is what [trim] returns. *)
Lemma stripped_trim (s t : jsstring) : stripped s t -> trim s = t.
Proof.
  intros (l & r & -> & Hl & Hr & Hhead & Hlast). unfold trim.
  rewrite (trimStart_white_app l _ Hl).
  destruct t as [| c rest].
  - cbn. assert (Hb : trimStart r = []) by (apply trimStart_empty_iff, blank_spec, Hr).
    rewrite Hb. reflexivity.
  - pose proof (Hhead c rest eq_refl) as Hc. apply is_white_false in Hc.
    cbn [app trimStart]. rewrite Hc.
    change (c :: rest ++ r) with ((c :: rest) ++ r).
    rewrite (trimEnd_app_white _ r Hr).
    destruct (exists_last (l := c :: rest)) as (front & z & Hz); [discriminate |].
    rewrite Hz. apply trimEnd_ends_black. apply (Hlast front z Hz).
Qed.

Lemma trimStart_decompose (s : jsstring) :
  exists l, s = l ++ trimStart s /\ Forall white l /\
            (forall c rest, trimStart s = c :: rest -> ~ white c).
Proof.
  induction s as [| c s (l & Hs & Hl & Hhead)]; cbn.
  - exists []. repeat split; [constructor | discriminate].
  - destruct (is_white c) eqn:Hc.
    + exists (c :: l). split; [cbn; f_equal; exact Hs |].
      split; [constructor; [apply is_white_spec, Hc | exact Hl] | exact Hhead].
    + exists []. split; [reflexivity |]. split; [constructor |].
      intros c' rest H. injection H as <- <-. apply is_white_false, Hc.
Qed.

Lemma trimEnd_decompose (u : jsstring) :
  exists r, u = trimEnd u ++ r /\ Forall white r /\
            (forall front c, trimEnd u = front ++ [c] -> ~ white c) /\
            (forall c rest, u = c :: rest -> ~ white c ->
               exists rest', trimEnd u = c :: rest').
Proof.
  induction u as [| x u (r & Hu & Hr & Hlast & _)]; cbn.
  - exists []. repeat split; try constructor; try discriminate.
    intros front c H. destruct front; discriminate H.
  - destruct (trimEnd u) as [| y t] eqn:Ht.
    + destruct (is_white x) eqn:Hx.
      * exists (x :: r). cbn in Hu. split; [cbn; f_equal; exact Hu |].
        split; [constructor; [apply is_white_spec, Hx | exact Hr] |].
        split; [intros front c H; destruct front; discriminate H |].
        intros c rest H Hc. injection H as <- <-.
        apply is_white_false in Hc. congruence.
      * exists r. cbn in Hu. split; [cbn; f_equal; exact Hu |].
        split; [exact Hr |].
        split.
        -- intros front c H. destruct front as [| z front].
           ++ injection H as <-. apply is_white_false, Hx.
           ++ destruct front; discriminate H.
        -- intros c rest H _. injection H as <- <-. exists []. reflexivity.
    + exists r. split; [cbn; f_equal; exact Hu |]. split; [exact Hr |]. split.
      * intros front c H. destruct front as [| z front]; [discriminate H |].
        injection H as <- H. apply (Hlast front c H).
      * intros c rest H _. injection H as <- <-. exists (y :: t). reflexivity.
Qed.

(** [trim] strips the white space at the two ends, and nothing else. *)
Lemma trim_stripped (s : jsstring) : stripped s (trim s).
Proof.
  unfold trim.
  destruct (trimStart_decompose s) as (l & Hs & Hl & Hhead).
  destruct (trimEnd_decompose (trimStart s)) as (r & Hu & Hr & Hlast & Hkeep).
  exists l, r. split; [rewrite <- Hu; exact Hs |].
  split; [exact Hl |]. split; [exact Hr |]. split; [| exact Hlast].
  intros c rest Ht. destruct (trimStart s) as [| d u] eqn:Hd.
  - discriminate Ht.
  - pose proof (Hhead d u eq_refl) as Hblack.
    destruct (Hkeep d u eq_refl Hblack) as (rest' & Hk).
    rewrite Hk in Ht. injection Ht as <- _. exact Hblack.
Qed.

Lemma place_parts_stripped (p : jsstring) :
  Forall2 stripped (split comma p) (place_parts p).
Proof.
  unfold place_parts. induction (split comma p) as [| x l IH]; cbn; constructor.
  - apply trim_stripped.
  - exact IH.
Qed.

(** *** The last segment *)

Lemma last_cons_cons {A : Type} (x y : A) (l : list A) :
  last (x :: y :: l) = last (y :: l).
Proof. reflexivity. Qed.

Lemma last_split_after (sep : N) (before rest : jsstring) :
  last (split sep (before ++ sep :: rest)) = last (split sep rest).
Proof.
  induction before as [| c before IH]; cbn [app split].
  - rewrite N.eqb_refl.
    pose proof (split_not_nil sep rest) as Hne.
    destruct (split sep rest) as [| x l]; [congruence | apply last_cons_cons].
  - assert (Hlen : (1 < List.length (split sep (before ++ sep :: rest)))%nat).
    { apply several_segments_iff. apply elem_of_app. right.
      apply elem_of_cons. left. reflexivity. }
    destruct (split sep (before ++ sep :: rest)) as [| x [| y l]] eqn:Hs;
      cbn in Hlen; try lia.
    destruct (N.eqb c sep); rewrite <- IH; reflexivity.
Qed.

(** The last element of [split] is the last segment. *)
Lemma last_segment_split (p seg : jsstring) :
  last_segment p seg -> last (split comma p) = Some seg.
Proof.
  intros [Hno [-> | (before & ->)]].
  - rewrite (split_without_sep _ _ Hno). reflexivity.
  - rewrite last_split_after, (split_without_sep _ _ Hno). reflexivity.
Qed.

Lemma last_segment_exists (p : jsstring) : exists seg, last_segment p seg.
Proof.
  induction p as [| c p (seg & Hno & Hseg)].
  - exists []. split; [apply not_elem_of_nil | left; reflexivity].
  - destruct Hseg as [-> | (before & ->)].
    + destruct (decide (c = comma)) as [-> | Hc].
      * exists seg. split; [exact Hno |]. right. exists []. reflexivity.
      * exists (c :: seg). split; [| left; reflexivity].
        intros Hin. apply elem_of_cons in Hin as [Hin | Hin]; [congruence | exact (Hno Hin)].
    + exists seg. split; [exact Hno |]. right. exists (c :: before). reflexivity.
Qed.

Lemma last_segment_comma (p seg : jsstring) :
  last_segment p seg -> comma ∉ p -> p = seg.
Proof.
  intros [_ [-> | (before & ->)]] Hno; [reflexivity |].
  exfalso. apply Hno. apply elem_of_app. right. apply elem_of_cons. left. reflexivity.
Qed.

Lemma last_place_parts_trim (p seg : jsstring) :
  last_segment p seg -> last (place_parts p) = Some (trim seg).
Proof.
  intros H. unfold place_parts.
  change (last (List.map trim (split comma p))) with (last (trim <$> split comma p)).
  rewrite fmap_last, (last_segment_split p seg H). reflexivity.
Qed.

(** *** Letter case *)



Lemma ascii_text_forallb (s : jsstring) : ascii_text s <-> forallb is_ascii s = true.
Proof.
  unfold ascii_text, is_ascii. rewrite forallb_forall, Forall_forall.
  split; intros H c Hin.
  - apply N.ltb_lt, H, list_elem_of_In, Hin.
  - apply N.ltb_lt, H, list_elem_of_In, Hin.
Qed.

Lemma toLowerCase_ascii (env : Env) (s : jsstring) :
  ascii_text s -> toLowerCase env s = List.map lower_ascii s.
Proof. intros H. unfold toLowerCase. apply ascii_text_forallb in H. rewrite H. reflexivity. Qed.





(** ** Numbers *)

Lemma num_lt_Fin (x y : Q) : num_lt (Fin x) (Fin y) = true <-> (x < y)%Q.
Proof.
  unfold num_lt. cbn. rewrite negb_true_iff. split.
  - intros H. apply Qnot_le_lt. intros Hle. apply Qle_bool_iff in Hle. congruence.
  - intros H. destruct (Qle_bool y x) eqn:Hb; [| reflexivity].
    apply Qle_bool_iff in Hb. exfalso. exact (Qlt_not_le _ _ H Hb).
Qed.

Lemma num_ge_Fin (x y : Q) : num_ge (Fin x) (Fin y) = true <-> (y <= x)%Q.
Proof. unfold num_ge. cbn. rewrite negb_involutive. apply Qle_bool_iff. Qed.

(** ** The query engine *)

Section QueryFacts.

Variable env : Env.

Lemma filter_all (A : Type) (l : list A) : List.filter (fun _ => true) l = l.
Proof. induction l as [| x l IH]; cbn; [reflexivity | rewrite IH; reflexivity]. Qed.

Lemma filter_filter (A : Type) (p q : A -> bool) (l : list A) :
  List.filter q (List.filter p l) = List.filter (fun x => p x && q x) l.
Proof.
  induction l as [| x l IH]; cbn; [reflexivity |].
  destruct (p x); cbn; [destruct (q x) |]; rewrite IH; reflexivity.
Qed.

Lemma filter_sublist (A : Type) (p : A -> bool) (l : list A) :
  List.filter p l `sublist_of` l.
Proof.
  induction l as [| x l IH]; cbn; [constructor |].
  destruct (p x); [apply sublist_skip | apply sublist_cons]; exact IH.
Qed.

Lemma elem_of_filter_bool (A : Type) (p : A -> bool) (l : list A) (x : A) :
  x ∈ List.filter p l <-> x ∈ l /\ p x = true.
Proof. rewrite !list_elem_of_In. apply filter_In. Qed.

(** The [switch] of [applyFilter] is a filter by [in_range]. *)
Lemma applyFilter_switch (filter : RangeFilter) (searchTerm : jsstring)
    (eqs : list Earthquake) :
  applyFilter env filter searchTerm eqs =
    let ranged := List.filter (in_range env filter) eqs in
    if blank searchTerm then ranged else List.filter (matches env searchTerm) ranged.
Proof.
  unfold applyFilter. cbn zeta.
  assert (Hr : match filter with
               | range_all => eqs
               | range_0_3 => List.filter (in_range env range_0_3) eqs
               | range_3_5 => List.filter (in_range env range_3_5) eqs
               | range_5_7 => List.filter (in_range env range_5_7) eqs
               | range_7_plus => List.filter (in_range env range_7_plus) eqs
               end = List.filter (in_range env filter) eqs).
  { destruct filter; try reflexivity. symmetry. apply filter_all. }
  rewrite Hr. destruct (blank searchTerm) eqn:Hb.
  - apply trim_empty_iff in Hb. rewrite Hb. reflexivity.
  - destruct (eqb_js (trim searchTerm) (lit "")) eqn:Ht; [| reflexivity].
    apply eqb_js_empty, trim_empty_iff in Ht. congruence.
Qed.

Lemma in_range_Fin (e : Earthquake) (q : Q) :
  mag e = JNum (Fin q) ->
  (in_range env range_0_3 e = true <-> (q < 3)%Q) /\
  (in_range env range_3_5 e = true <-> (3 <= q /\ q < 5)%Q) /\
  (in_range env range_5_7 e = true <-> (5 <= q /\ q < 7)%Q) /\
  (in_range env range_7_plus e = true <-> (7 <= q)%Q).
Proof.
  intros Hm. unfold in_range, js_lt, js_ge. rewrite Hm. cbn [toNumber].
  rewrite !andb_true_iff, !num_lt_Fin, !num_ge_Fin. tauto.
Qed.

End QueryFacts.

(** * The claims *)

(** C2.  With the range selector on "all" and an empty search text,
    [applyFilter] returns its input collection unchanged: same elements,
    same order, same length. *)
Theorem applyFilter_all_empty_identity (env : Env) (eqs : list Earthquake) :
  applyFilter env range_all (lit "") eqs = eqs /\
  List.length (applyFilter env range_all (lit "") eqs) = List.length eqs.
Proof. split; reflexivity. Qed.

(** C3.  For an event whose magnitude is the number [q >= 0]: the event is
    kept by the "3-5" filter iff [3 <= q < 5]; each bucket keeps exactly the
    magnitudes of its half-open interval [0,3), [3,5), [5,7), [7,oo); and
    exactly one of the four buckets keeps the event (no overlap, no gap). *)
Theorem range_buckets_partition (env : Env) (e : Earthquake) (q : Q)
    (eqs : list Earthquake) :
  mag e = JNum (Fin q) ->
  (0 <= q)%Q ->
  (e ∈ applyFilter env range_3_5 (lit "") eqs <-> e ∈ eqs /\ (3 <= q /\ q < 5)%Q) /\
  (forall r, e ∈ applyFilter env r (lit "") eqs <-> e ∈ eqs /\ in_range env r e = true) /\
  (in_range env range_0_3 e = true <-> (0 <= q /\ q < 3)%Q) /\
  (in_range env range_3_5 e = true <-> (3 <= q /\ q < 5)%Q) /\
  (in_range env range_5_7 e = true <-> (5 <= q /\ q < 7)%Q) /\
  (in_range env range_7_plus e = true <-> (7 <= q)%Q) /\
  (exists r, r ∈ buckets /\ in_range env r e = true /\
     forall r', r' ∈ buckets -> in_range env r' e = true -> r' = r).
Proof.
  intros Hm Hq.
  destruct (in_range_Fin env e q Hm) as (H03 & H35 & H57 & H7).
  assert (Hmem : forall r, e ∈ applyFilter env r (lit "") eqs <-> e ∈ eqs /\ in_range env r e = true).
  { intros r. rewrite applyFilter_switch. cbn. apply elem_of_filter_bool. }
  split; [rewrite Hmem, H35; reflexivity |].
  split; [exact Hmem |].
  split; [rewrite H03; tauto |].
  split; [exact H35 |]. split; [exact H57 |]. split; [exact H7 |].
  assert (Hone : forall r', r' ∈ buckets -> r' = range_0_3 \/ r' = range_3_5 \/
                                           r' = range_5_7 \/ r' = range_7_plus).
  { intros r' Hr'. unfold buckets in Hr'. rewrite !elem_of_cons, elem_of_nil in Hr'. tauto. }
  destruct (Qlt_le_dec q 3) as [L3 | G3];
    [| destruct (Qlt_le_dec q 5) as [L5 | G5];
       [| destruct (Qlt_le_dec q 7) as [L7 | G7]]].
  - exists range_0_3. split; [unfold buckets; rewrite !elem_of_cons; tauto |].
    split; [apply H03; exact L3 |].
    intros r' Hr' Hin. destruct (Hone r' Hr') as [-> | [-> | [-> | ->]]]; [reflexivity | | |].
    + apply H35 in Hin. lra.
    + apply H57 in Hin. lra.
    + apply H7 in Hin. lra.
  - exists range_3_5. split; [unfold buckets; rewrite !elem_of_cons; tauto |].
    split; [apply H35; split; assumption |].
    intros r' Hr' Hin. destruct (Hone r' Hr') as [-> | [-> | [-> | ->]]]; [| reflexivity | |].
    + apply H03 in Hin. lra.
    + apply H57 in Hin. lra.
    + apply H7 in Hin. lra.
  - exists range_5_7. split; [unfold buckets; rewrite !elem_of_cons; tauto |].
    split; [apply H57; split; assumption |].
    intros r' Hr' Hin. destruct (Hone r' Hr') as [-> | [-> | [-> | ->]]]; [| | reflexivity |].
    + apply H03 in Hin. lra.
    + apply H35 in Hin. lra.
    + apply H7 in Hin. lra.
  - exists range_7_plus. split; [unfold buckets; rewrite !elem_of_cons; tauto |].
    split; [apply H7; exact G7 |].
    intros r' Hr' Hin. destruct (Hone r' Hr') as [-> | [-> | [-> | ->]]]; [| | | reflexivity].
    + apply H03 in Hin. lra.
    + apply H35 in Hin. lra.
    + apply H57 in Hin. lra.
Qed.

Lemma range_buckets_partition_witness :
  mag quake_tokyo = JNum (Fin 4.2) /\ (0 <= 4.2)%Q /\
  (quake_tokyo ∈ applyFilter sample_env range_3_5 (lit "") sample_quakes <->
   quake_tokyo ∈ sample_quakes /\ (3 <= 4.2 /\ 4.2 < 5)%Q).
Proof.
  split; [reflexivity |]. split; [discriminate |].
  apply (range_buckets_partition sample_env quake_tokyo 4.2 sample_quakes);
    [reflexivity | discriminate].
Defined.

(** C4.  [applyFilter] applies the range filter first and the search filter
    second; the result keeps exactly the events passing both (an AND), and
    it is a subsequence of the input: relative order is preserved and
    nothing is re-sorted. *)
Theorem applyFilter_range_then_search_stable (env : Env) (filter : RangeFilter)
    (searchTerm : jsstring) (eqs : list Earthquake) :
  applyFilter env filter searchTerm eqs =
    (if blank searchTerm then (fun l => l) else List.filter (matches env searchTerm))
      (List.filter (in_range env filter) eqs) /\
  applyFilter env filter searchTerm eqs =
    List.filter (fun e => in_range env filter e &&
                          (blank searchTerm || matches env searchTerm e)) eqs /\
  applyFilter env filter searchTerm eqs `sublist_of` eqs.
Proof.
  assert (H1 : applyFilter env filter searchTerm eqs =
    (if blank searchTerm then (fun l => l) else List.filter (matches env searchTerm))
      (List.filter (in_range env filter) eqs)).
  { rewrite applyFilter_switch. cbn zeta. destruct (blank searchTerm); reflexivity. }
  assert (H2 : applyFilter env filter searchTerm eqs =
    List.filter (fun e => in_range env filter e &&
                          (blank searchTerm || matches env searchTerm e)) eqs).
  { rewrite H1. destruct (blank searchTerm); cbn.
    - apply filter_ext. intros e. rewrite andb_true_r. reflexivity.
    - apply filter_filter. }
  split; [exact H1 |]. split; [exact H2 |].
  rewrite H2. apply filter_sublist.
Qed.




(** C6.  The visible window is exactly the first [page * pageSize] elements
    of the filtered collection, and it only grows: when [p <= q] the window
    of [p] pages is a prefix of the window of [q] pages, so the smaller
    result reappears unchanged at the front of the larger one; the same
    holds of [slice 0 n] for any two sizes [0 <= n <= m]. *)
Theorem paginatedData_prefix_monotone (p q : nat) (n m : Z)
    (filteredData : list Earthquake) :
  (p <= q)%nat ->
  (0 <= n <= m)%Z ->
  paginatedData p filteredData = take (p * pageSize) filteredData /\
  paginatedData p filteredData `prefix_of` paginatedData q filteredData /\
  slice 0 n filteredData = take (Z.to_nat n) filteredData /\
  slice 0 n filteredData `prefix_of` slice 0 m filteredData.
Proof.
  intros Hpq Hnm.
  assert (Hslice : forall k : Z, (0 <= k)%Z ->
            slice 0 k filteredData = take (Z.to_nat k) filteredData).
  { intros k Hk. unfold slice. cbn zeta.
    assert (Hneg : (k <? 0)%Z = false) by (apply Z.ltb_ge; exact Hk).
    rewrite Hneg. change (0 <? 0)%Z with false. cbn iota.
    rewrite (Z.min_l 0) by lia. cbn [Z.to_nat drop]. rewrite Z.sub_0_r.
    destruct (Z.le_gt_cases k (Z.of_nat (List.length filteredData))) as [Hle | Hgt].
    - rewrite Z.min_l by exact Hle. reflexivity.
    - rewrite Z.min_r by lia. rewrite Nat2Z.id.
      rewrite (take_ge _ (Z.to_nat k)) by lia. apply take_ge. lia. }
  assert (Hmono : forall a b : nat, (a <= b)%nat ->
            take a filteredData `prefix_of` take b filteredData).
  { intros a b Hab. replace a with (Nat.min a b) by lia.
    rewrite <- take_take. apply prefix_take. }
  unfold paginatedData. rewrite !Hslice by lia. rewrite !Nat2Z.id.
  split; [reflexivity |].
  split; [apply Hmono; unfold pageSize; nia |].
  split; [reflexivity |].
  apply Hmono. lia.
Qed.

Lemma paginatedData_prefix_monotone_witness :
  paginatedData 1 (sample_quakes ++ sample_quakes ++ sample_quakes)
    `prefix_of` paginatedData 2 (sample_quakes ++ sample_quakes ++ sample_quakes).
Proof.
  apply (paginatedData_prefix_monotone 1 2 3 7
           (sample_quakes ++ sample_quakes ++ sample_quakes)).
  - apply le_S, le_n.
  - split; discriminate.
Defined.




(** C10.  When [properties.place] of a readable feature is falsy (missing,
    [null], the empty string, [0], [false], [NaN]), the emitted record has
    the place "Unknown" and no country code: "Unknown" has a single
    comma-separated segment, so no resolution is attempted.  The record does
    not depend on which falsy value the place was. *)
Theorem falsy_place_becomes_Unknown (env : Env)
    (f geometry coordinates properties rawPlace : JsVal) (lonlat : JsVal * JsVal) :
  get "geometry" f = Ok geometry ->
  get "coordinates" geometry = Ok coordinates ->
  destructure2 coordinates = Ok lonlat ->
  get "properties" f = Ok properties ->
  get "place" properties = Ok rawPlace ->
  truthy rawPlace = false ->
  normalize env f =
    Ok (mkEarthquake (field "id" f) (lit "Unknown") (field "mag" properties)
          (field "time" properties) (snd lonlat) (fst lonlat) None) /\
  place_parts (lit "Unknown") = [(lit "Unknown")] /\
  (exists e, normalize env f = Ok e /\ place e = (lit "Unknown") /\ country e = None).
Proof.
  intros Hg Hc Hd Hp Hr Hfalsy.
  assert (Hn : normalize env f =
    Ok (mkEarthquake (field "id" f) (lit "Unknown") (field "mag" properties)
          (field "time" properties) (snd lonlat) (fst lonlat) None)).
  { rewrite (normalize_readable env f geometry coordinates properties rawPlace lonlat
               (lit "Unknown") Hg Hc Hd Hp Hr).
    - reflexivity.
    - unfold js_or. rewrite Hfalsy. reflexivity. }
  split; [exact Hn |]. split; [reflexivity |].
  eexists. split; [exact Hn |]. split; reflexivity.
Qed.

Lemma falsy_place_becomes_Unknown_witness :
  exists e, normalize sample_env ev_empty_place = Ok e /\
            place e = (lit "Unknown") /\ country e = None.
Proof.
  apply (falsy_place_becomes_Unknown sample_env ev_empty_place
           (JObj [("coordinates", JArr [jnum 10; jnum 20])])
           (JArr [jnum 10; jnum 20])
           (JObj [("place", JStr (lit "")); ("mag", jnum 2)])
           (JStr (lit "")) (jnum 10, jnum 20)); reflexivity.
Defined.

Section CountryFacts.

Variable env : Env.

Lemma countryCode_of_single (p : jsstring) :
  comma ∉ p -> countryCode_of env p = None.
Proof.
  intros Hnot. unfold countryCode_of, place_parts.
  rewrite (split_without_sep _ _ Hnot). reflexivity.
Qed.

Lemma countryCode_of_several (p t : jsstring) :
  comma ∈ p ->
  last (place_parts p) = Some t ->
  countryCode_of env p = truthy_string (countries_getAlpha2Code env t en).
Proof.
  intros Hin Hlast. unfold countryCode_of. rewrite Hlast.
  unfold place_parts. rewrite length_map.
  apply several_segments_iff in Hin. apply Nat.ltb_lt in Hin. rewrite Hin.
  reflexivity.
Qed.

Lemma last_place_parts (p : jsstring) : exists t, last (place_parts p) = Some t.
Proof.
  unfold place_parts. pose proof (split_not_nil comma p) as Hne.
  apply (last_is_Some (List.map trim (split comma p))).
  destruct (split comma p); [congruence | discriminate].
Qed.

(** With a comma in the place, the country code is the answer of the table
    on the last segment stripped of its white space. *)
Lemma countryCode_of_stripped (p seg t : jsstring) :
  comma ∈ p -> last_segment p seg -> stripped seg t ->
  countryCode_of env p = truthy_string (countries_getAlpha2Code env t en).
Proof.
  intros Hin Hseg Ht. apply countryCode_of_several; [exact Hin |].
  rewrite (last_place_parts_trim p seg Hseg), (stripped_trim seg t Ht). reflexivity.
Qed.

End CountryFacts.

(** C7.  For a readable feature whose place is the non-empty string [p]:
    the record keeps [p]; [p] is split on commas (joining the segments with
    commas gives [p] back, and there is more than one segment exactly when
    [p] contains a comma) and each segment is stripped of the white space at
    its two ends.  Without a comma no country code is produced, whatever
    the table says; with a comma the country code is the (truthy) answer of
    [getAlpha2Code] on the stripped text after the last comma, and is
    absent, with the record still emitted, when the table has no answer.
    The code depends on that stripped last segment only: the Tokyo and
    Osaka places resolve alike, and white space around "Japan", a no-break
    space included, changes nothing. *)
Theorem country_resolved_from_last_segment (env : Env)
    (f geometry coordinates properties : JsVal) (lonlat : JsVal * JsVal)
    (p : jsstring) :
  get "geometry" f = Ok geometry ->
  get "coordinates" geometry = Ok coordinates ->
  destructure2 coordinates = Ok lonlat ->
  get "properties" f = Ok properties ->
  get "place" properties = Ok (JStr p) ->
  p <> [] ->
  (exists e, normalize env f = Ok e /\ place e = p /\
     (comma ∉ p -> country e = None) /\
     (exists seg t, last_segment p seg /\ stripped seg t) /\
     (forall seg t, comma ∈ p -> last_segment p seg -> stripped seg t ->
        country e = truthy_string (countries_getAlpha2Code env t en) /\
        (countries_getAlpha2Code env t en = None -> country e = None))) /\
  ((1 < List.length (split comma p))%nat <-> comma ∈ p) /\
  join comma (split comma p) = p /\
  Forall (fun s => comma ∉ s) (split comma p) /\
  Forall2 stripped (split comma p) (place_parts p) /\
  (forall p1 p2 seg1 seg2 t, comma ∈ p1 -> comma ∈ p2 ->
     last_segment p1 seg1 -> last_segment p2 seg2 ->
     stripped seg1 t -> stripped seg2 t ->
     countryCode_of env p1 = countryCode_of env p2) /\
  countryCode_of env (lit "10km SE of Tokyo, Japan") =
    truthy_string (countries_getAlpha2Code env (lit "Japan") en) /\
  countryCode_of env (lit "20km N of Osaka, Japan") =
    countryCode_of env (lit "10km SE of Tokyo, Japan") /\
  countryCode_of env (lit "Bar, Japan ") =
    truthy_string (countries_getAlpha2Code env (lit "Japan") en) /\
  countryCode_of env (lit "Foo," ++ [160%N] ++ lit "Japan" ++ [12288%N; 9%N]) =
    truthy_string (countries_getAlpha2Code env (lit "Japan") en).
Proof.
  intros Hg Hc Hd Hp Hr Hne.
  assert (Hs : split_receiver (js_or (JStr p) (JStr (lit "Unknown"))) = Ok p).
  { unfold js_or. cbn. destruct (eqb_js p (lit "")) eqn:He; [| reflexivity].
    apply eqb_js_empty in He. congruence. }
  pose proof (normalize_readable env f geometry coordinates properties (JStr p)
                lonlat p Hg Hc Hd Hp Hr Hs) as Hn.
  split; [| split; [| split; [| split; [| split; [| split; [| repeat split]]]]]].
  - eexists. split; [exact Hn |]. cbn [place country].
    split; [reflexivity |].
    split; [apply countryCode_of_single |]. split.
    + destruct (last_segment_exists p) as (seg & Hseg).
      exists seg, (trim seg). split; [exact Hseg | apply trim_stripped].
    + intros seg t Hin Hseg Ht.
      rewrite (countryCode_of_stripped env p seg t Hin Hseg Ht).
      split; [reflexivity |]. intros ->. reflexivity.
  - apply several_segments_iff.
  - apply join_split.
  - apply split_no_sep.
  - apply place_parts_stripped.
  - intros p1 p2 seg1 seg2 t H1 H2 Hs1 Hs2 Ht1 Ht2.
    rewrite (countryCode_of_stripped env p1 seg1 t H1 Hs1 Ht1).
    rewrite (countryCode_of_stripped env p2 seg2 t H2 Hs2 Ht2). reflexivity.
Qed.

Lemma country_resolved_from_last_segment_witness :
  countryCode_of sample_env (lit "20km N of Osaka, Japan") =
    countryCode_of sample_env (lit "10km SE of Tokyo, Japan").
Proof.
  apply (country_resolved_from_last_segment sample_env ev1
           (JObj [("coordinates", JArr [jnum 139.7; jnum 35.7])])
           (JArr [jnum 139.7; jnum 35.7])
           (JObj [("place", JStr (lit "10km SE of Tokyo, Japan")); ("mag", jnum 4.2);
                  ("time", jnum 1700000000000)])
           (jnum 139.7, jnum 35.7) (lit "10km SE of Tokyo, Japan"));
    try reflexivity.
  discriminate.
Defined.

Lemma append_cons (c : ascii) (s t : string) : String c s +:+ t = String c (s +:+ t).
Proof. reflexivity. Qed.

Lemma append_inj_r (s a b : string) : s +:+ a = s +:+ b -> a = b.
Proof.
  induction s as [| c s IH]; intros H.
  - exact H.
  - rewrite !append_cons in H. injection H as H. apply IH, H.
Qed.

(** C8, as stated, fails: the failure that is surfaced does not carry the
    endpoint's status text.  After a response with status text
    "Internal Server Error" the message kept in the state is the fixed text
    "Earthquake Data failed to load.", which does not contain the status
    text and is the very message left by a response with the status text
    "Not Found"; and after a network error there is no response, hence no
    status text, and the same message once more. *)
Lemma status_text_not_surfaced :
  let run net := run_fetchData sample_env net weekly en initial_state in
  error (run (respond "Internal Server Error" false JNull)) =
    Some "Earthquake Data failed to load." /\
  includes (lit "Earthquake Data failed to load.") (lit "Internal Server Error") = false /\
  error (run (respond "Not Found" false JNull)) =
    error (run (respond "Internal Server Error" false JNull)) /\
  earthquakes (run (respond "Not Found" false JNull)) =
    earthquakes (run (respond "Internal Server Error" false JNull)) /\
  run (fun _ => Throw NetworkError) =
    mkState [] (Some "Earthquake Data failed to load.") [NetworkError].
Proof. repeat split; reflexivity. Qed.

(** C8, amended.  [fetchData] ends in one of two distinct failure messages,
    and resets the collection to empty in both.  A network error or a
    non-success status leaves the fixed message "<label> failed to load.",
    whatever the status text; the status text only appears in the message of
    the exception written to the console for a non-success status.  A
    successful response whose feature list is missing or empty leaves the
    different message "<label> not available." and logs nothing. *)
Theorem fetch_failures_distinguished (env : Env) (net : Network) (feed : Feed)
    (language : Language) (st : State) :
  let label := translations_earthquakeData env language in
  let st' := run_fetchData env net feed language st in
  (forall e, net (feed_url feed) = Throw e ->
     st' = mkState [] (Some (label +:+ " failed to load.")) (console st ++ [e])) /\
  (forall res, net (feed_url feed) = Ok res -> ok res = false ->
     st' = mkState [] (Some (label +:+ " failed to load."))
             (console st ++ [Error ("Failed to fetch data: " +:+ statusText res)])) /\
  (forall res features, net (feed_url feed) = Ok res -> ok res = true ->
     (json res ≫= get "features") = Ok features ->
     features = JUndefined \/ features = JArr [] ->
     st' = mkState [] (Some (label +:+ " not available.")) (console st)) /\
  label +:+ " failed to load." <> label +:+ " not available.".
Proof.
  intros label st'. split; [| split; [| split]].
  - intros e Hnet. apply run_fetchData_rejected, Hnet.
  - intros res Hnet Hok. apply run_fetchData_not_ok; assumption.
  - intros res features Hnet Hok Hbody Hempty.
    apply (run_fetchData_no_data env net feed language st res features); try assumption.
    destruct Hempty as [-> | ->]; reflexivity.
  - intros H. apply append_inj_r in H. discriminate H.
Qed.

Lemma fetch_failures_distinguished_witness :
  run_fetchData sample_env (respond "OK" true (JObj [("features", JArr [])]))
    daily hi initial_state =
  mkState [] (Some "Earthquake Data not available.") [].
Proof.
  apply (fetch_failures_distinguished sample_env
           (respond "OK" true (JObj [("features", JArr [])])) daily hi initial_state)
    with (res := mkResponse true "OK" (Ok (JObj [("features", JArr [])])))
         (features := JArr []).
  - reflexivity.
  - reflexivity.
  - reflexivity.
  - right. reflexivity.
Defined.

(** C9, as stated, fails: a place without a comma is not shown as
    "Unknown".  The Fiji record has no country code and its place
    "Fiji region" has no comma, yet [formatCountry] answers "Fiji region". *)
Lemma place_without_comma_not_Unknown :
  country quake_fiji = None /\
  (comma ∉ place quake_fiji) /\
  formatCountry sample_env en quake_fiji = lit "Fiji region" /\
  formatCountry sample_env en quake_fiji <> lit "Unknown".
Proof.
  split; [reflexivity |]. split; [| split; [reflexivity | discriminate]].
  intros H. apply list_elem_of_In in H. vm_compute in H.
  repeat (destruct H as [H | H]; [discriminate H |]). exact H.
Qed.

(** The default taken by [formatCountry] for a stripped segment. *)
Lemma formatCountry_without_code (env : Env) (language : Language) (eq : Earthquake)
    (seg t : jsstring) :
  country eq = None \/ country eq = Some [] ->
  last_segment (place eq) seg ->
  stripped seg t ->
  formatCountry env language eq = match t with [] => lit "Unknown" | _ :: _ => t end.
Proof.
  intros Hc Hseg Ht. unfold formatCountry.
  assert (Hnone : truthy_string (country eq) = None).
  { destruct Hc as [-> | ->]; reflexivity. }
  rewrite Hnone, (last_place_parts_trim _ seg Hseg), (stripped_trim seg t Ht).
  destruct t; reflexivity.
Qed.

(** C9, amended.  With a non-empty country code, [formatCountry] returns
    the localized name when the lookup gives a non-empty one, and the stored
    code otherwise.  Without a country code it returns the last
    comma-separated segment of the place, stripped of the white space at its
    two ends, which is the whole stripped place when the place has no comma;
    it returns "Unknown" only when that stripped segment is empty. *)
Theorem formatCountry_falls_back (env : Env) (language : Language) (eq : Earthquake) :
  (forall code name, country eq = Some code -> code <> [] ->
     countries_getName env code language = Some name -> name <> [] ->
     formatCountry env language eq = name) /\
  (forall code, country eq = Some code -> code <> [] ->
     countries_getName env code language = None \/
     countries_getName env code language = Some [] ->
     formatCountry env language eq = code) /\
  (forall seg t, country eq = None \/ country eq = Some [] ->
     last_segment (place eq) seg -> stripped seg t ->
     formatCountry env language eq = match t with [] => lit "Unknown" | _ :: _ => t end) /\
  (forall t, country eq = None \/ country eq = Some [] ->
     comma ∉ place eq -> stripped (place eq) t ->
     formatCountry env language eq = match t with [] => lit "Unknown" | _ :: _ => t end) /\
  (exists seg t, last_segment (place eq) seg /\ stripped seg t) /\
  (forall i m ti la lo,
     formatCountry env language
       (mkEarthquake i (lit "Fiji region" ++ [160%N]) m ti la lo None) =
     lit "Fiji region" /\
     formatCountry env language (mkEarthquake i [160%N] m ti la lo None) =
     lit "Unknown" /\
     formatCountry env language
       (mkEarthquake i (lit "10km SE of Tokyo, ") m ti la lo None) =
     lit "Unknown" /\
     formatCountry env language
       (mkEarthquake i (lit "3km W of Cobb,  CA ") m ti la lo None) =
     lit "CA").
Proof.
  assert (Hsome : forall code, country eq = Some code -> code <> [] ->
                    truthy_string (country eq) = Some code).
  { intros code -> Hne. cbn. destruct (eqb_js code (lit "")) eqn:He; [| reflexivity].
    apply eqb_js_empty in He. congruence. }
  split; [| split; [| split; [| split; [| split]]]].
  - intros code name Hc Hne Hname Hnn. unfold formatCountry.
    rewrite (Hsome code Hc Hne), Hname. cbn.
    destruct (eqb_js name (lit "")) eqn:He; [| reflexivity].
    apply eqb_js_empty in He. congruence.
  - intros code Hc Hne Hname. unfold formatCountry. rewrite (Hsome code Hc Hne).
    destruct Hname as [-> | ->]; reflexivity.
  - intros seg t Hc Hseg Ht. apply (formatCountry_without_code env language eq seg t Hc Hseg Ht).
  - intros t Hc Hno Ht.
    apply (formatCountry_without_code env language eq (place eq) t Hc); [| exact Ht].
    split; [exact Hno | left; reflexivity].
  - destruct (last_segment_exists (place eq)) as (seg & Hseg).
    exists seg, (trim seg). split; [exact Hseg | apply trim_stripped].
  - intros i m ti la lo. repeat split.
Qed.

Lemma formatCountry_falls_back_witness :
  formatCountry sample_env hi quake_tokyo = lit "JP".
Proof.
  apply (formatCountry_falls_back sample_env hi quake_tokyo).
  - reflexivity.
  - discriminate.
  - left. reflexivity.
Defined.


(** * Worked runs

    The end-to-end scenarios, evaluated on the sample environment. *)

Example normalize_ev1 :
  normalize sample_env ev1 =
    Ok (mkEarthquake (JStr (lit "ev1")) (lit "10km SE of Tokyo, Japan") (jnum 4.2)
          (jnum 1700000000000) (jnum 35.7) (jnum 139.7) (Some (lit "JP"))).
Proof. reflexivity. Qed.

Example ev1_in_3_5_not_in_7_plus :
  applyFilter sample_env range_3_5 (lit "") [emitted sample_env ev1] = [emitted sample_env ev1] /\
  applyFilter sample_env range_7_plus (lit "") [emitted sample_env ev1] = [].
Proof. split; reflexivity. Qed.

Example search_ignores_case :
  applyFilter sample_env range_all (lit "JAPAN") sample_quakes = [quake_tokyo; quake_osaka] /\
  applyFilter sample_env range_all (lit "japan") sample_quakes = [quake_tokyo; quake_osaka] /\
  applyFilter sample_env range_all (lit "   ") sample_quakes = sample_quakes.
Proof. repeat split; reflexivity. Qed.

Example range_then_search :
  applyFilter sample_env range_3_5 (lit "japan") sample_quakes = [quake_tokyo] /\
  applyFilter sample_env range_0_3 (lit "") sample_quakes = [quake_cobb].
Proof. split; reflexivity. Qed.

Example undefined_magnitude_in_no_bucket :
  forallb (fun r => negb (in_range sample_env r (emitted sample_env ev_no_mag))) buckets = true.
Proof. reflexivity. Qed.

Example unreadable_feature_aborts_run :
  readable ev_no_geometry = false /\
  run_fetchData sample_env
    (respond "OK" true (JObj [("features", JArr [ev1; ev_no_geometry])]))
    weekly en initial_state =
  mkState [] (Some "Earthquake Data failed to load.") [TypeError].
Proof. split; reflexivity. Qed.

Example empty_feed_is_no_data :
  run_fetchData sample_env (respond "OK" true (JObj [("features", JArr [])]))
    weekly en initial_state =
  mkState [] (Some "Earthquake Data not available.") [] /\
  applyFilter sample_env range_3_5 (lit "x") [] = [].
Proof. split; reflexivity. Qed.

Example status_500_fails :
  run_fetchData sample_env (respond "Internal Server Error" false JNull)
    weekly en (mkState sample_quakes None []) =
  mkState [] (Some "Earthquake Data failed to load.")
    [Error "Failed to fetch data: Internal Server Error"].
Proof. reflexivity. Qed.


(** * Further properties of the component *)

(** ** Magnitude colors and buckets *)

Lemma num_ge_not_lt (n : number) (a : Q) :
  num_ge n (Fin a) = true -> num_lt n (Fin a) = false.
Proof.
  unfold num_ge, num_lt. destruct (num_compare_lt n (Fin a)) as [r |]; [| discriminate].
  destruct r; [discriminate | reflexivity].
Qed.

Lemma num_lt_not_ge (n : number) (a : Q) :
  num_lt n (Fin a) = true -> num_ge n (Fin a) = false.
Proof.
  unfold num_ge, num_lt. destruct (num_compare_lt n (Fin a)) as [r |]; [| discriminate].
  intros ->. reflexivity.
Qed.

Lemma num_lt_weaken (n : number) (a b : Q) :
  (a <= b)%Q -> num_lt n (Fin a) = true -> num_lt n (Fin b) = true.
Proof.
  intros Hab. destruct n as [| | q |]; try (intros H; exact H).
  rewrite !num_lt_Fin. intros H. lra.
Qed.

Lemma num_lt_or_ge (n : number) (a : Q) :
  n <> NaN -> num_lt n (Fin a) = true \/ num_ge n (Fin a) = true.
Proof.
  intros Hn. destruct n as [| | q |]; [congruence | left; reflexivity | | right; reflexivity].
  unfold num_lt, num_ge. cbn. destruct (Qle_bool a q); [right | left]; reflexivity.
Qed.

Lemma num_NaN_compares_false (a : Q) :
  num_lt NaN (Fin a) = false /\ num_ge NaN (Fin a) = false.
Proof. split; reflexivity. Qed.

Section ColorFacts.

Variable env : Env.

(** The color of a value in terms of the bucket tests. *)
Lemma getColor_in_range (e : Earthquake) (r : RangeFilter) :
  r <> range_all ->
  in_range env r e = true ->
  getColor env (mag e) = getFilterColor r.
Proof.
  intros Hr Hin. unfold getColor, js_lt. unfold in_range, js_lt, js_ge in Hin.
  set (n := toNumber env (mag e)) in *.
  assert (H35 : (3 <= 5)%Q) by discriminate.
  assert (H57 : (5 <= 7)%Q) by discriminate.
  destruct r; [congruence | | | |]; cbn [getFilterColor].
  - rewrite Hin. reflexivity.
  - apply andb_true_iff in Hin as [Hge Hlt].
    rewrite (num_ge_not_lt _ _ Hge), Hlt. reflexivity.
  - apply andb_true_iff in Hin as [Hge Hlt].
    apply num_ge_not_lt in Hge.
    destruct (num_lt n (Fin 3)) eqn:H3.
    { apply (num_lt_weaken n 3 5 H35) in H3. congruence. }
    rewrite Hge, Hlt. reflexivity.
  - apply num_ge_not_lt in Hin.
    destruct (num_lt n (Fin 5)) eqn:H5.
    { apply (num_lt_weaken n 5 7 H57) in H5. congruence. }
    destruct (num_lt n (Fin 3)) eqn:H3.
    { apply (num_lt_weaken n 3 5 H35) in H3. congruence. }
    rewrite Hin. reflexivity.
Qed.

Lemma in_buckets (r : RangeFilter) : r ∈ buckets <-> r <> range_all.
Proof.
  unfold buckets. rewrite !elem_of_cons, elem_of_nil.
  destruct r; split; intros H; try congruence; try tauto;
    repeat (destruct H as [H | H]; try discriminate H); try contradiction.
Qed.

Lemma in_range_disjoint (e : Earthquake) (r1 r2 : RangeFilter) :
  r1 <> range_all -> r2 <> range_all ->
  in_range env r1 e = true -> in_range env r2 e = true -> r1 = r2.
Proof.
  intros H1 H2 Hin1 Hin2.
  apply (getColor_in_range e r1 H1) in Hin1.
  apply (getColor_in_range e r2 H2) in Hin2.
  rewrite Hin1 in Hin2.
  destruct r1, r2; try reflexivity; try congruence; discriminate Hin2.
Qed.

Lemma in_range_some_bucket (e : Earthquake) :
  toNumber env (mag e) <> NaN ->
  exists r, r <> range_all /\ in_range env r e = true.
Proof.
  intros Hn. unfold in_range, js_lt, js_ge.
  set (n := toNumber env (mag e)) in *.
  destruct (num_lt_or_ge n 3 Hn) as [L3 | G3].
  { exists range_0_3. split; [discriminate | exact L3]. }
  destruct (num_lt_or_ge n 5 Hn) as [L5 | G5].
  { exists range_3_5. split; [discriminate | rewrite G3, L5; reflexivity]. }
  destruct (num_lt_or_ge n 7 Hn) as [L7 | G7].
  { exists range_5_7. split; [discriminate | rewrite G5, L7; reflexivity]. }
  exists range_7_plus. split; [discriminate | exact G7].
Qed.

Lemma in_range_NaN (e : Earthquake) (r : RangeFilter) :
  toNumber env (mag e) = NaN -> r <> range_all -> in_range env r e = false.
Proof.
  intros Hn Hr. unfold in_range, js_lt, js_ge. rewrite Hn.
  destruct r; [congruence | | | |]; reflexivity.
Qed.

End ColorFacts.

(** X1.  Under a bucket filter every marker on the map has the color of that
    bucket, the one the range selector itself is painted with: [getColor]
    and the four filter callbacks use the same thresholds, whatever value the
    magnitude field holds. *)
Theorem markers_have_bucket_color (env : Env) (eqs : list Earthquake) (v : View)
    (m : Marker) :
  filter v <> range_all ->
  m ∈ markers env eqs v ->
  color m = getFilterColor (filter v) /\ fillColor m = getFilterColor (filter v).
Proof.
  intros Hr Hm. unfold markers in Hm.
  apply list_elem_of_In, in_map_iff in Hm as (e & <- & He). cbn [color fillColor].
  assert (Hin : in_range env (filter v) e = true).
  { unfold filteredData in He. rewrite applyFilter_switch in He. cbn zeta in He.
    apply list_elem_of_In in He.
    destruct (blank (searchTerm v)).
    - apply elem_of_filter_bool in He as [_ He]. exact He.
    - apply elem_of_filter_bool in He as [He _].
      apply elem_of_filter_bool in He as [_ He]. exact He. }
  rewrite (getColor_in_range env e (filter v) Hr Hin). split; reflexivity.
Qed.

Lemma markers_have_bucket_color_witness :
  mkMarker (id quake_tokyo) (lat quake_tokyo, lon quake_tokyo) "gold" "gold"
    ∈ markers sample_env sample_quakes (mkView en false range_3_5 1 None (lit "") (lit "") weekly) /\
  color (mkMarker (id quake_tokyo) (lat quake_tokyo, lon quake_tokyo) "gold" "gold") =
    getFilterColor range_3_5.
Proof.
  assert (Hm : mkMarker (id quake_tokyo) (lat quake_tokyo, lon quake_tokyo) "gold" "gold"
                 ∈ markers sample_env sample_quakes
                     (mkView en false range_3_5 1 None (lit "") (lit "") weekly)).
  { apply list_elem_of_In. cbn. left. reflexivity. }
  split; [exact Hm |].
  apply (markers_have_bucket_color sample_env sample_quakes
           (mkView en false range_3_5 1 None (lit "") (lit "") weekly) _ ltac:(discriminate) Hm).
Defined.

(** X2.  Whatever the magnitude field holds, at most one of the four buckets
    keeps an event, and one does exactly when the magnitude converts to a
    number other than [NaN]; an event whose magnitude converts to [NaN] is
    kept by no bucket and is shown only under "all". *)
Theorem buckets_partition_all_values (env : Env) (e : Earthquake) :
  (forall r1 r2, r1 ∈ buckets -> r2 ∈ buckets ->
     in_range env r1 e = true -> in_range env r2 e = true -> r1 = r2) /\
  ((exists r, r ∈ buckets /\ in_range env r e = true) <->
   toNumber env (mag e) <> NaN) /\
  (forall eqs r t, toNumber env (mag e) = NaN -> r ∈ buckets ->
     e ∉ applyFilter env r t eqs) /\
  (forall eqs, e ∈ eqs -> e ∈ applyFilter env range_all (lit "") eqs).
Proof.
  split; [| split; [| split]].
  - intros r1 r2 H1 H2. apply in_range_disjoint; apply in_buckets; assumption.
  - split.
    + intros (r & Hr & Hin) Hn. apply in_buckets in Hr.
      rewrite (in_range_NaN env e r Hn Hr) in Hin. discriminate Hin.
    + intros Hn. destruct (in_range_some_bucket env e Hn) as (r & Hr & Hin).
      exists r. split; [apply in_buckets, Hr | exact Hin].
  - intros eqs r t Hn Hr Hin. apply in_buckets in Hr.
    rewrite applyFilter_switch in Hin. cbn zeta in Hin.
    assert (Hk : e ∈ List.filter (in_range env r) eqs).
    { destruct (blank t); [exact Hin |].
      apply elem_of_filter_bool in Hin as [Hin _]. exact Hin. }
    apply elem_of_filter_bool in Hk as [_ Hk].
    rewrite (in_range_NaN env e r Hn Hr) in Hk. discriminate Hk.
  - intros eqs Hin. exact Hin.
Qed.

(** X3.  A record emitted without a magnitude ([mag] undefined) is drawn red and
    disappears under each of the four bucket filters; a record whose
    magnitude is [null] counts as magnitude 0: it is drawn green and kept by
    the "0-3" filter. *)
Theorem missing_and_null_magnitude (env : Env) (e : Earthquake)
    (eqs : list Earthquake) :
  e ∈ eqs ->
  (mag e = JUndefined ->
     getColor env (mag e) = "red" /\
     forall r t, r ∈ buckets -> e ∉ applyFilter env r t eqs) /\
  (mag e = JNull ->
     getColor env (mag e) = "green" /\
     e ∈ applyFilter env range_0_3 (lit "") eqs).
Proof.
  intros He. split.
  - intros Hm. split; [rewrite Hm; reflexivity |].
    intros r t Hr Hin. apply in_buckets in Hr.
    rewrite applyFilter_switch in Hin. cbn zeta in Hin.
    assert (Hk : e ∈ List.filter (in_range env r) eqs).
    { destruct (blank t); [exact Hin |].
      apply elem_of_filter_bool in Hin as [Hin _]. exact Hin. }
    apply elem_of_filter_bool in Hk as [_ Hk].
    rewrite (in_range_NaN env e r) in Hk; [discriminate Hk | | exact Hr].
    rewrite Hm. reflexivity.
  - intros Hm. split; [rewrite Hm; reflexivity |].
    rewrite applyFilter_switch. cbn. apply elem_of_filter_bool.
    split; [exact He |]. unfold in_range, js_lt. rewrite Hm. reflexivity.
Qed.

Lemma missing_and_null_magnitude_witness :
  getColor sample_env (mag (emitted sample_env ev_no_mag)) = "red" /\
  forall r t, r ∈ buckets ->
    emitted sample_env ev_no_mag ∉
      applyFilter sample_env r t [emitted sample_env ev_no_mag; quake_tokyo].
Proof.
  apply (missing_and_null_magnitude sample_env (emitted sample_env ev_no_mag)
           [emitted sample_env ev_no_mag; quake_tokyo]).
  - apply elem_of_cons. left. reflexivity.
  - reflexivity.
Defined.

(** ** The algebra of [applyFilter] *)

Lemma blank_append (a b : jsstring) : blank (a ++ b) = blank a && blank b.
Proof. unfold blank. apply forallb_app. Qed.

Lemma includes_narrow (h pre t post : jsstring) :
  includes h (pre ++ t ++ post) = true -> includes h t = true.
Proof.
  rewrite !includes_spec. intros (a & b & ->).
  exists (a ++ pre), (post ++ b). rewrite <- !app_assoc. reflexivity.
Qed.

Lemma ascii_text_app (a b : jsstring) :
  ascii_text (a ++ b) <-> ascii_text a /\ ascii_text b.
Proof. unfold ascii_text. apply Forall_app. Qed.

Lemma filter_sublist_within (A : Type) (p q : A -> bool) (l : list A) :
  Forall (fun x => p x = true -> q x = true) l ->
  List.filter p l `sublist_of` List.filter q l.
Proof.
  induction 1 as [| x l Hx _ IH]; cbn; [constructor |].
  destruct (p x) eqn:Hp.
  - rewrite (Hx eq_refl). apply sublist_skip, IH.
  - destruct (q x); [apply sublist_cons |]; exact IH.
Qed.

Lemma filter_idempotent (A : Type) (p : A -> bool) (l : list A) :
  List.filter p (List.filter p l) = List.filter p l.
Proof.
  rewrite filter_filter. apply filter_ext. intros x. apply andb_diag.
Qed.

(** [applyFilter] as one filter. *)
Lemma applyFilter_as_filter (env : Env) (r : RangeFilter) (t : jsstring)
    (eqs : list Earthquake) :
  applyFilter env r t eqs =
    List.filter (fun e => in_range env r e && (blank t || matches env t e)) eqs.
Proof.
  rewrite applyFilter_switch. cbn zeta. destruct (blank t); cbn.
  - apply filter_ext. intros e. rewrite andb_true_r. reflexivity.
  - apply filter_filter.
Qed.

(** X4.  Filtering what is already filtered by the same query changes nothing. *)
Theorem applyFilter_idempotent (env : Env) (r : RangeFilter) (t : jsstring)
    (eqs : list Earthquake) :
  applyFilter env r t (applyFilter env r t eqs) = applyFilter env r t eqs.
Proof. rewrite !applyFilter_as_filter. apply filter_idempotent. Qed.

(** X5.  [applyFilter] treats each event on its own: the result on a
    concatenation is the concatenation of the results, so an empty
    collection stays empty and the result is never longer than the input. *)
Theorem applyFilter_app (env : Env) (r : RangeFilter) (t : jsstring)
    (eqs1 eqs2 : list Earthquake) :
  applyFilter env r t (eqs1 ++ eqs2) =
    applyFilter env r t eqs1 ++ applyFilter env r t eqs2 /\
  applyFilter env r t [] = [] /\
  (List.length (applyFilter env r t eqs1) <= List.length eqs1)%nat.
Proof.
  rewrite !applyFilter_as_filter. split; [apply List.filter_app |].
  split; [reflexivity |]. apply List.filter_length_le.
Qed.

(** X6.  For ASCII text over places written in ASCII, extending the
    search text, in front or behind, never adds an event: the result for
    the longer text is a subsequence of the result for the shorter one.
    (Outside ASCII the lower-case mapping of a longer text need not extend
    that of a shorter one, and the property is not claimed.) *)
Theorem longer_search_text_narrows (env : Env) (r : RangeFilter)
    (pre t post : jsstring) (eqs : list Earthquake) :
  ascii_text (pre ++ t ++ post) ->
  Forall (fun e => ascii_text (place e)) eqs ->
  applyFilter env r (pre ++ t ++ post) eqs `sublist_of` applyFilter env r t eqs.
Proof.
  intros Hascii Hplaces.
  assert (Ht : ascii_text t).
  { apply ascii_text_app in Hascii as [_ H]. apply ascii_text_app in H as [H _]. exact H. }
  rewrite !applyFilter_as_filter. apply filter_sublist_within.
  apply (Forall_impl _ _ _ Hplaces). intros e He H.
  apply andb_true_iff in H as [Hr Hs]. rewrite Hr. cbn [andb].
  destruct (blank t) eqn:Hb; [reflexivity |]. cbn [orb].
  rewrite !blank_append, Hb, andb_false_l, andb_false_r in Hs. cbn [orb] in Hs.
  unfold matches in *.
  rewrite (toLowerCase_ascii env _ Hascii), (toLowerCase_ascii env _ He) in Hs.
  rewrite (toLowerCase_ascii env _ Ht), (toLowerCase_ascii env _ He).
  rewrite !List.map_app in Hs. apply (includes_narrow _ _ _ _ Hs).
Qed.

Lemma longer_search_text_narrows_witness :
  applyFilter sample_env range_all (lit "of " ++ lit "Tokyo" ++ lit ", J") sample_quakes
    `sublist_of` applyFilter sample_env range_all (lit "Tokyo") sample_quakes.
Proof.
  apply (longer_search_text_narrows sample_env range_all
           (lit "of ") (lit "Tokyo") (lit ", J") sample_quakes).
  - apply ascii_text_forallb. reflexivity.
  - repeat constructor; apply ascii_text_forallb; reflexivity.
Defined.

(** ** The table window and Load More *)

Lemma paginatedData_take (p : nat) (l : list Earthquake) :
  paginatedData p l = take (p * pageSize) l.
Proof.
  unfold paginatedData, slice. cbn zeta.
  assert (Hneg : (Z.of_nat (p * pageSize) <? 0)%Z = false) by (apply Z.ltb_ge; lia).
  rewrite Hneg. change (0 <? 0)%Z with false. cbn iota.
  rewrite (Z.min_l 0) by lia. cbn [Z.to_nat drop]. rewrite Z.sub_0_r.
  destruct (Nat.le_gt_cases (p * pageSize) (List.length l)) as [Hle | Hgt].
  - rewrite Z.min_l by lia. rewrite Nat2Z.id. reflexivity.
  - rewrite Z.min_r by lia. rewrite Nat2Z.id.
    rewrite (take_ge _ (p * pageSize)) by lia. apply take_ge. lia.
Qed.

(** X7.  The table shows [min (page * pageSize) n] of the [n] filtered events. *)
Theorem paginatedData_length (p : nat) (l : list Earthquake) :
  List.length (paginatedData p l) = Nat.min (p * pageSize) (List.length l).
Proof. rewrite paginatedData_take. apply length_take. Qed.

(** X8.  The Load More button exists exactly while the table hides some
    filtered event; once it is gone the table shows the whole filtered
    collection. *)
Theorem loadMore_shown_iff_rows_hidden (env : Env) (eqs : list Earthquake) (v : View) :
  (loadMore_shown env eqs v = true <->
   (List.length (visibleRows env eqs v) < List.length (filteredData env eqs v))%nat) /\
  (loadMore_shown env eqs v = false -> visibleRows env eqs v = filteredData env eqs v).
Proof.
  unfold loadMore_shown, visibleRows. rewrite paginatedData_length. split.
  - rewrite Nat.ltb_lt. lia.
  - intros H. apply Nat.ltb_ge in H. rewrite paginatedData_take. apply take_ge, H.
Qed.

(** X9.  One more page appends the next [pageSize] filtered events to the rows
    already shown; when the Load More condition holds, at least one row is
    added. *)
Theorem load_more_appends_next_page (p : nat) (l : list Earthquake) :
  paginatedData (p + 1) l =
    paginatedData p l ++ take pageSize (drop (p * pageSize) l) /\
  ((p * pageSize < List.length l)%nat ->
   (List.length (paginatedData p l) < List.length (paginatedData (p + 1) l))%nat).
Proof.
  split.
  - rewrite !paginatedData_take.
    replace ((p + 1) * pageSize)%nat with (p * pageSize + pageSize)%nat by lia.
    symmetry. apply take_take_drop.
  - intros H. rewrite !paginatedData_length. unfold pageSize in *. lia.
Qed.

(** ** Sessions over the view *)

Lemma applyFilter_subset (env : Env) (r : RangeFilter) (t : jsstring)
    (eqs : list Earthquake) (e : Earthquake) :
  e ∈ applyFilter env r t eqs -> e ∈ eqs.
Proof.
  rewrite applyFilter_as_filter. intros H. apply elem_of_filter_bool in H as [H _].
  exact H.
Qed.

Lemma visibleRows_subset (env : Env) (eqs : list Earthquake) (v : View)
    (e : Earthquake) :
  e ∈ visibleRows env eqs v -> e ∈ filteredData env eqs v.
Proof.
  unfold visibleRows. rewrite paginatedData_take. intros H.
  apply (elem_of_sublist _ _ _ H (sublist_take _ _)).
Qed.

(** X10.  Over an unchanged event collection, whatever the user does: the page
    count stays at least 1; every page shown beyond the first holds at least
    one row, so Load More never opens an empty page; and the selected event,
    if any, is one of the loaded events. *)
Theorem session_invariants (env : Env) (eqs : list Earthquake)
    (actions : list Action) (v : View) :
  (1 <= page v)%nat ->
  (page v = 1%nat \/
   ((page v - 1) * pageSize < List.length (filteredData env eqs v))%nat) ->
  (forall e, selectedEq v = Some e -> e ∈ eqs) ->
  session env eqs v actions ->
  let v' := fold_left (fun w a => handle a w) actions v in
  (1 <= page v')%nat /\
  (page v' = 1%nat \/
   ((page v' - 1) * pageSize < List.length (filteredData env eqs v'))%nat) /\
  (forall e, selectedEq v' = Some e -> e ∈ eqs).
Proof.
  revert v. induction actions as [| a rest IH]; intros v Hp Hw Hs Hsess.
  - cbn. repeat split; assumption.
  - cbn [fold_left]. destruct Hsess as [Hr Hrest].
    apply IH; [| | | exact Hrest].
    + destruct a; cbn; lia.
    + destruct a; cbn [handle page]; try (left; reflexivity); try exact Hw.
      right. destruct Hr as [_ Hr]. unfold loadMore_shown in Hr.
      apply Nat.ltb_lt in Hr.
      replace (page v + 1 - 1)%nat with (page v) by lia. exact Hr.
    + destruct a; cbn [handle selectedEq]; try exact Hs.
      intros e He. injection He as <-. destruct Hr as [_ Hr].
      apply visibleRows_subset in Hr. unfold filteredData in Hr.
      apply (applyFilter_subset _ _ _ _ _ Hr).
Qed.

Lemma session_invariants_witness :
  let eqs := sample_quakes ++ sample_quakes ++ sample_quakes in
  let v' := fold_left (fun w a => handle a w)
              [OpenTable; ClickLoadMore; ClickRow quake_cobb] initial_view in
  (1 <= page v')%nat /\
  (page v' = 1%nat \/
   ((page v' - 1) * pageSize < List.length (filteredData sample_env eqs v'))%nat) /\
  (forall e, selectedEq v' = Some e -> e ∈ eqs).
Proof.
  apply (session_invariants sample_env
           (sample_quakes ++ sample_quakes ++ sample_quakes)
           [OpenTable; ClickLoadMore; ClickRow quake_cobb] initial_view).
  - apply le_n.
  - left. reflexivity.
  - intros e He. discriminate He.
  - cbn. split; [exact I |]. split; [split; reflexivity |].
    split; [| exact I]. split; [reflexivity |].
    apply list_elem_of_In. cbn. do 3 right. left. reflexivity.
Defined.

(** X11.  A search or a change of the range selector returns the table to its
    first page, so at most [pageSize] rows are shown afterwards; typing in
    the search box alone changes neither the markers nor the rows. *)
Theorem search_and_filter_reset_window (env : Env) (eqs : list Earthquake)
    (v : View) (r : RangeFilter) (text : jsstring) :
  (List.length (visibleRows env eqs (handle ClickSearch v)) <= pageSize)%nat /\
  (List.length (visibleRows env eqs (handle (SelectFilter r) v)) <= pageSize)%nat /\
  filteredData env eqs (handle ClickSearch v) =
    applyFilter env (filter v) (searchInput v) eqs /\
  markers env eqs (handle (TypeSearch text) v) = markers env eqs v /\
  visibleRows env eqs (handle (TypeSearch text) v) = visibleRows env eqs v.
Proof.
  unfold visibleRows. rewrite !paginatedData_length. cbn [handle page].
  repeat split; lia.
Qed.

(** X12.  Every row of the table has its marker on the map, with the record's
    id, position and magnitude color; the map shows one marker for each
    filtered event, not only for the rows of the table. *)
Theorem every_row_has_marker (env : Env) (eqs : list Earthquake) (v : View)
    (e : Earthquake) :
  e ∈ visibleRows env eqs v ->
  mkMarker (id e) (lat e, lon e) (getColor env (mag e)) (getColor env (mag e))
    ∈ markers env eqs v /\
  List.length (markers env eqs v) = List.length (filteredData env eqs v) /\
  (List.length (visibleRows env eqs v) <= List.length (markers env eqs v))%nat.
Proof.
  intros He. split; [| split].
  - apply visibleRows_subset in He. unfold markers.
    apply list_elem_of_In.
    apply (in_map (fun eq => mkMarker (id eq) (lat eq, lon eq) (getColor env (mag eq))
                               (getColor env (mag eq)))).
    apply list_elem_of_In, He.
  - unfold markers. apply length_map.
  - unfold markers, visibleRows. rewrite length_map, paginatedData_length. lia.
Qed.

Lemma every_row_has_marker_witness :
  mkMarker (id quake_fiji) (lat quake_fiji, lon quake_fiji) "orange" "orange"
    ∈ markers sample_env sample_quakes initial_view.
Proof.
  apply (every_row_has_marker sample_env sample_quakes initial_view quake_fiji).
  apply list_elem_of_In. cbn. right. left. reflexivity.
Defined.

(** X13.  The map flies to the selected event only when both of its coordinates
    are truthy: an event on the equator or on the prime meridian (latitude
    or longitude 0), or one without coordinates, leaves the map where it
    is. *)
Theorem fly_needs_truthy_coordinates (v : View) (e : Earthquake) :
  selectedEq v = Some e ->
  (fly_commands v = [flyTo (lat e) (lon e) 6 1.5] <->
   truthy (lat e) = true /\ truthy (lon e) = true) /\
  (fly_commands v = [] <-> truthy (lat e) = false \/ truthy (lon e) = false) /\
  (lat e = jnum 0 \/ lon e = jnum 0 \/ lat e = JUndefined \/ lon e = JUndefined ->
   fly_commands v = []).
Proof.
  intros Hsel. unfold fly_commands, FlyToLocation, js_and. rewrite Hsel.
  assert (H0 : truthy (jnum 0) = false) by reflexivity.
  destruct (truthy (lat e)) eqn:Hlat; [destruct (truthy (lon e)) eqn:Hlon |].
  - split; [tauto |]. split.
    + split; [discriminate | intros [H | H]; discriminate H].
    + intros [H | [H | [H | H]]]; rewrite H in *; cbn in *; congruence.
  - split; [split; [discriminate | intros [_ H]; discriminate H] |].
    split; [tauto | reflexivity].
  - rewrite Hlat.
    split; [split; [discriminate | intros [H _]; discriminate H] |].
    split; [tauto | reflexivity].
Qed.

Lemma fly_needs_truthy_coordinates_witness :
  fly_commands (handle (ClickRow quake_tokyo) initial_view) = [].
Proof.
  apply (fly_needs_truthy_coordinates (handle (ClickRow quake_tokyo) initial_view)
           quake_tokyo).
  - reflexivity.
  - left. reflexivity.
Defined.

(** ** How a run of [fetchData] can end *)

Lemma no_features_total (features : JsVal) : exists b, no_features features = Ok b.
Proof.
  unfold no_features. destruct (truthy features) eqn:Ht; [| exists true; reflexivity].
  destruct features; try discriminate Ht; cbn; eexists; reflexivity.
Qed.

Lemma no_features_array (items : list JsVal) :
  no_features (JArr items) = Ok false -> items <> [].
Proof. intros H ->. discriminate H. Qed.

Lemma normalize_throws_TypeError (env : Env) (f : JsVal) (e : JsError) :
  normalize env f = Throw e -> e = TypeError.
Proof.
  rewrite normalize_spec. destruct (readable f); [discriminate |].
  intros H. injection H as <-. reflexivity.
Qed.

Lemma map_result_normalize_Throw (env : Env) (items : list JsVal) (e : JsError) :
  map_result (normalize env) items = Throw e -> e = TypeError.
Proof.
  induction items as [| f rest IH]; cbn; [discriminate |].
  destruct (normalize env f) as [x | e0] eqn:Hf.
  - rewrite bind_Ok. destruct (map_result (normalize env) rest) as [xs | e1].
    + discriminate.
    + rewrite bind_Throw. intros H. injection H as <-. apply IH. reflexivity.
  - rewrite bind_Throw. intros H. injection H as <-.
    apply (normalize_throws_TypeError env f e0 Hf).
Qed.

Lemma map_result_not_nil {A B : Type} (f : A -> Result B) (l : list A) (out : list B) :
  l <> [] -> map_result f l = Ok out -> out <> [].
Proof.
  intros Hl H. apply map_result_Forall2 in H. destruct H; [congruence | discriminate].
Qed.

Section OutcomeFacts.

Variable env : Env.
Variables (net : Network) (feed : Feed).

(** The feature list is truthy, not empty by its [length], and not an
    array: the call of [map] raises. *)
Lemma run_fetchData_not_array (language : Language) (st : State) (res : Response)
    (features : JsVal) (e : JsError) :
  net (feed_url feed) = Ok res ->
  ok res = true ->
  (json res ≫= get "features") = Ok features ->
  no_features features = Ok false ->
  map_receiver features = Throw e ->
  run_fetchData env net feed language st = settle env language (Failed e) st.
Proof.
  intros H Hok Hbody Hno Hmap. apply bind_Ok_inv in Hbody as (data & Hdata & Hf).
  unfold run_fetchData, fetchData, try_catch, fetchData_try.
  unfold mbind, M_bind, lift, throw, setError, setEarthquakes, console_error.
  rewrite H. cbn. rewrite Hok. cbn. rewrite Hdata, Hf, Hno, Hmap. reflexivity.
Qed.

(** Each run ends in one of three ways, decided by the response alone;
    a loaded collection is never empty. *)
Lemma fetch_outcome :
  exists o : Outcome,
    (forall language st,
       run_fetchData env net feed language st = settle env language o st) /\
    (forall eqs, o = Loaded eqs -> eqs <> []).
Proof.
  destruct (net (feed_url feed)) as [res | e] eqn:Hnet.
  2:{ exists (Failed e). split; [| discriminate].
      intros language st. apply run_fetchData_rejected, Hnet. }
  destruct (ok res) eqn:Hok.
  2:{ exists (Failed (Error ("Failed to fetch data: " +:+ statusText res))).
      split; [| discriminate].
      intros language st. apply run_fetchData_not_ok; assumption. }
  destruct (json res ≫= get "features") as [features | e] eqn:Hbody.
  2:{ exists (Failed e). split; [| discriminate].
      intros language st. apply (run_fetchData_bad_body _ _ _ _ _ res); assumption. }
  destruct (no_features_total features) as ([|] & Hno).
  { exists NoData. split; [| discriminate].
    intros language st. apply (run_fetchData_no_data _ _ _ _ _ res features); assumption. }
  destruct (map_receiver features) as [items | e] eqn:Hmap.
  2:{ exists (Failed e). split; [| discriminate].
      intros language st.
      apply (run_fetchData_not_array language st res features); assumption. }
  assert (features = JArr items) as ->.
  { destruct features; try discriminate Hmap. injection Hmap as ->. reflexivity. }
  pose proof (no_features_array items Hno) as Hne.
  destruct (map_result (normalize env) items) as [eqs | e] eqn:Hres.
  - exists (Loaded eqs). split.
    + intros language st. apply (run_fetchData_loaded _ _ _ _ _ res items); assumption.
    + intros eqs' H. injection H as <-. apply (map_result_not_nil _ _ _ Hne Hres).
  - exists (Failed e). split; [| discriminate].
    intros language st. apply (run_fetchData_aborted _ _ _ _ _ res items); assumption.
Qed.

End OutcomeFacts.

(** X14.  A run replaces the collection and the message and never merges with
    what was there: the result from any state is the result from the empty
    state, with the console log of the run appended to the previous log; a
    run logs at most one error. *)
Theorem fetchData_replaces_state (env : Env) (net : Network) (feed : Feed)
    (language : Language) (st : State) :
  let fresh := run_fetchData env net feed language initial_state in
  run_fetchData env net feed language st =
    mkState (earthquakes fresh) (error fresh) (console st ++ console fresh) /\
  (List.length (console fresh) <= 1)%nat.
Proof.
  destruct (fetch_outcome env net feed) as (o & Hrun & _).
  cbn zeta. rewrite (Hrun language st), (Hrun language initial_state).
  destruct o; cbn; rewrite ?app_nil_r; split; try reflexivity; lia.
Qed.

(** X15.  After a run the collection is empty exactly when an error message is
    set: a feed without features never shows as an empty collection without
    a message, and a message never comes with stale events. *)
Theorem fetchData_error_iff_empty (env : Env) (net : Network) (feed : Feed)
    (language : Language) (st : State) :
  let st' := run_fetchData env net feed language st in
  (error st' = None <-> earthquakes st' <> []) /\
  (forall msg, error st' = Some msg -> earthquakes st' = []).
Proof.
  destruct (fetch_outcome env net feed) as (o & Hrun & Hne).
  cbn zeta. rewrite (Hrun language st).
  destruct o as [e | | eqs]; cbn.
  - split; [split; [discriminate | congruence] | reflexivity].
  - split; [split; [discriminate | congruence] | reflexivity].
  - split; [split; [intros _; apply Hne; reflexivity | reflexivity] | discriminate].
Qed.

(** X16.  The selected language only changes the label of the message: two runs
    on the same response in different languages leave the same events and
    the same console log, and fail or succeed together. *)
Theorem fetchData_language_only_labels (env : Env) (net : Network) (feed : Feed)
    (l1 l2 : Language) (st : State) :
  let st1 := run_fetchData env net feed l1 st in
  let st2 := run_fetchData env net feed l2 st in
  earthquakes st1 = earthquakes st2 /\
  console st1 = console st2 /\
  (error st1 = None <-> error st2 = None) /\
  (translations_earthquakeData env l1 = translations_earthquakeData env l2 ->
   st1 = st2).
Proof.
  destruct (fetch_outcome env net feed) as (o & Hrun & _).
  cbn zeta. rewrite (Hrun l1 st), (Hrun l2 st).
  destruct o; cbn; repeat split; try reflexivity; try discriminate;
    intros ->; reflexivity.
Qed.

(** X17.  One feature the callback cannot read fails the whole run: whatever
    its siblings are, the collection is emptied, the "failed to load"
    message is set and a [TypeError] is logged. *)
Theorem unreadable_feature_fails_run (env : Env) (net : Network) (feed : Feed)
    (language : Language) (st : State) (res : Response) (items : list JsVal)
    (f : JsVal) :
  net (feed_url feed) = Ok res ->
  ok res = true ->
  (json res ≫= get "features") = Ok (JArr items) ->
  f ∈ items ->
  readable f = false ->
  run_fetchData env net feed language st =
    mkState [] (Some (translations_earthquakeData env language +:+ " failed to load."))
      (console st ++ [TypeError]).
Proof.
  intros Hnet Hok Hbody Hin Hread.
  assert (Hf : normalize env f = Throw TypeError).
  { rewrite normalize_spec, Hread. reflexivity. }
  destruct (map_result_Throw (normalize env) items f TypeError Hin Hf) as (e & He).
  pose proof (map_result_normalize_Throw env items e He) as ->.
  apply (run_fetchData_aborted env net feed language st res items); assumption.
Qed.

Lemma unreadable_feature_fails_run_witness :
  run_fetchData sample_env
    (respond "OK" true (JObj [("features", JArr [ev1; ev_no_geometry; ev_no_mag])]))
    daily en initial_state =
  mkState [] (Some "Earthquake Data failed to load.") [TypeError].
Proof.
  apply (unreadable_feature_fails_run sample_env
           (respond "OK" true (JObj [("features", JArr [ev1; ev_no_geometry; ev_no_mag])]))
           daily en initial_state
           (mkResponse true "OK"
              (Ok (JObj [("features", JArr [ev1; ev_no_geometry; ev_no_mag])])))
           [ev1; ev_no_geometry; ev_no_mag] ev_no_geometry).
  - reflexivity.
  - reflexivity.
  - reflexivity.
  - apply elem_of_cons. right. apply elem_of_cons. left. reflexivity.
  - reflexivity.
Defined.

(** X18.  A successful response with an unusable body fails like a network
    error: a body that is not JSON, a body that is [null], and a feature
    list that is truthy but not an array (unless it is an object whose
    [length] is 0) all end in the "failed to load" message with an empty
    collection. *)
Theorem malformed_body_fails (env : Env) (net : Network) (feed : Feed)
    (language : Language) (st : State) (res : Response) :
  net (feed_url feed) = Ok res ->
  ok res = true ->
  let st' := run_fetchData env net feed language st in
  (forall e, json res = Throw e -> st' = settle env language (Failed e) st) /\
  (json res = Ok JNull -> st' = settle env language (Failed TypeError) st) /\
  (forall features, (json res ≫= get "features") = Ok features ->
     truthy features = true ->
     (forall items, features <> JArr items) ->
     (forall fields, features = JObj fields ->
        strict_eq_zero (assoc "length" fields) = false) ->
     st' = settle env language (Failed TypeError) st).
Proof.
  intros Hnet Hok st'. split; [| split].
  - intros e He. apply (run_fetchData_bad_body env net feed language st res e Hnet Hok).
    rewrite He. reflexivity.
  - intros Hj. apply (run_fetchData_bad_body env net feed language st res _ Hnet Hok).
    rewrite Hj. reflexivity.
  - intros features Hbody Ht Harr Hobj.
    apply (run_fetchData_not_array env net feed language st res features TypeError);
      try assumption.
    + unfold no_features. rewrite Ht.
      destruct features as [| | b | n | s | items | fields]; try discriminate Ht; cbn.
      * reflexivity.
      * reflexivity.
      * destruct s as [| c s]; [discriminate Ht | reflexivity].
      * exfalso. apply (Harr items). reflexivity.
      * rewrite (Hobj fields); reflexivity.
    + destruct features; try reflexivity. exfalso. apply (Harr items). reflexivity.
Qed.

Lemma malformed_body_fails_witness :
  run_fetchData sample_env (respond "OK" true JNull) weekly te initial_state =
  settle sample_env te (Failed TypeError) initial_state.
Proof.
  apply (malformed_body_fails sample_env (respond "OK" true JNull) weekly te
           initial_state (mkResponse true "OK" (Ok JNull))); reflexivity.
Defined.

(** ** What every emitted record satisfies *)

Lemma truthy_string_Some (o : option jsstring) (s : jsstring) :
  truthy_string o = Some s -> o = Some s /\ s <> [].
Proof.
  destruct o as [x |]; cbn; [| discriminate].
  destruct (eqb_js x (lit "")) eqn:He; [discriminate |].
  intros H. injection H as <-. split; [reflexivity |].
  intros ->. discriminate He.
Qed.

Lemma place_of_not_empty (f : JsVal) : place_of f <> [].
Proof.
  unfold place_of, js_or.
  destruct (truthy (field "place" (field "properties" f))) eqn:Ht; [| discriminate].
  destruct (field "place" (field "properties" f)); try discriminate.
  cbn in Ht. intros ->. discriminate Ht.
Qed.

(** X19.  Every record that [normalize] emits has a non-empty place; its country
    code, when present, is non-empty and comes from a place that contains a
    comma; its longitude and latitude are the first and the second entry of
    [geometry.coordinates], unchanged, and [undefined] where the entry is
    missing. *)
Theorem normalize_invariants (env : Env) (f : JsVal) (e : Earthquake) :
  normalize env f = Ok e ->
  place e <> [] /\
  (forall c, country e = Some c ->
     c <> [] /\ comma ∈ place e) /\
  (forall items, field "coordinates" (field "geometry" f) = JArr items ->
     lon e = nth_or_undefined 0 items /\ lat e = nth_or_undefined 1 items) /\
  (forall a b rest, field "coordinates" (field "geometry" f) = JArr (a :: b :: rest) ->
     lon e = a /\ lat e = b) /\
  (forall a, field "coordinates" (field "geometry" f) = JArr [a] ->
     lon e = a /\ lat e = JUndefined).
Proof.
  rewrite normalize_spec. destruct (readable f); [| discriminate].
  intros H. injection H as <-. unfold emitted. cbn [place country lon lat].
  assert (Hc : forall items, field "coordinates" (field "geometry" f) = JArr items ->
     (lonlat_of f).1 = nth_or_undefined 0 items /\
     (lonlat_of f).2 = nth_or_undefined 1 items).
  { intros items Hi. unfold lonlat_of. rewrite Hi. split; reflexivity. }
  split; [apply place_of_not_empty |]. split; [| split; [exact Hc | split]].
  - intros c Hcode. unfold countryCode_of in Hcode.
    destruct (1 <? List.length (place_parts (place_of f)))%nat eqn:Hlen; [| discriminate].
    destruct (last (place_parts (place_of f))) as [t |]; [| discriminate].
    apply truthy_string_Some in Hcode as [_ Hne]. split; [exact Hne |].
    apply Nat.ltb_lt in Hlen. unfold place_parts in Hlen. rewrite length_map in Hlen.
    apply several_segments_iff, Hlen.
  - intros a b rest Hi. apply (Hc _ Hi).
  - intros a Hi. apply (Hc _ Hi).
Qed.

Lemma normalize_invariants_witness :
  place (emitted sample_env ev1) <> [] /\
  (forall c, country (emitted sample_env ev1) = Some c ->
     c <> [] /\ comma ∈ place (emitted sample_env ev1)).
Proof.
  destruct (normalize_invariants sample_env ev1 (emitted sample_env ev1) eq_refl)
    as (Hplace & Hcountry & _).
  split; [exact Hplace | exact Hcountry].
Defined.

(** X20.  [formatCountry] never returns the empty string, for any record, table
    and language: the country cell of a row is never blank. *)
Theorem formatCountry_never_empty (env : Env) (language : Language) (eq : Earthquake) :
  formatCountry env language eq <> [].
Proof.
  unfold formatCountry.
  destruct (truthy_string (country eq)) as [code |] eqn:Hc.
  - apply truthy_string_Some in Hc as [_ Hcode].
    destruct (truthy_string (countries_getName env code language)) as [name |] eqn:Hn.
    + apply truthy_string_Some in Hn as [_ Hname]. exact Hname.
    + exact Hcode.
  - destruct (truthy_string (last (place_parts (place eq)))) as [tail |] eqn:Ht.
    + apply truthy_string_Some in Ht as [_ Htail]. exact Htail.
    + discriminate.
Qed.
